(** * react-dynamic-overlay: the [Overlay] class of [src/index.tsx]

    A shallow embedding of the overlay registry and of the subscription
    life cycle of its [Container] component, followed by the properties of
    the registry that the specification states.

    Objects live in a heap indexed by their reference, the state cells of
    mounted containers live in a second store, and every method is a
    function from the world before the call to the world after it, together
    with the way the call completed (it returned, or an exception escaped). *)

From stdpp Require Import base list strings pretty.

Open Scope Z_scope.

(** ** JavaScript values used by the class *)

Module JS.

(** The largest integer up to which a JavaScript number (an IEEE-754
    double) counts in steps of one: [2^53]. *)
Definition MAX_EXACT : Z := 9007199254740992.

(** [++n] on a number holding an integer.  The counter of an overlay starts
    at [-1] and is only ever incremented, so it ranges over [-1 .. 2^53];
    on that range the sum [n + 1] is exact below [2^53], and at [2^53] it
    is rounded (ties to even) back to [2^53]. *)
Definition incr (n : Z) : Z :=
  if n <? MAX_EXACT then n + 1 else n.

Section Arrays.

Context {T : Type}.

(** A relative index of [slice] and [splice]: negative values count from
    the end, and the result is clamped to [0 .. length]. *)
Definition relative (k : Z) (len : nat) : nat :=
  if k <? 0 then Z.to_nat (Z.max (Z.of_nat len + k) 0)
  else Z.to_nat (Z.min k (Z.of_nat len)).

(** [arr.push(x)]: the array after the call and the returned new length. *)
Definition push (x : T) (arr : list T) : list T * Z :=
  (arr ++ [x], Z.of_nat (length arr) + 1).

(** [arr.splice(start)] with its single argument: every element from
    [start] to the end is deleted.  The result is the array that is left. *)
Definition splice (start : Z) (arr : list T) : list T :=
  take (relative start (length arr)) arr.

(** [arr.slice(start, end)]. *)
Definition slice (start end_ : Z) (arr : list T) : list T :=
  let s := relative start (length arr) in
  let e := relative end_ (length arr) in
  take (e - s)%nat (drop s arr).

End Arrays.

End JS.

(** ** The data model *)

(** The reference of an [Overlay] object: its index in the heap. *)
Definition ref := nat.

(** The state cell that [useState] gives to one mounted [Container]. *)
Definition cell := nat.

(** A subscriber is the closure [() => { setComponents(this.components) }]
    created by the effect of a container: it captures the overlay [this] and
    the setter of the container's cell. *)
Record callback := Callback { cb_this : ref; cb_cell : cell }.

Global Instance callback_eq_dec : EqDecision callback.
Proof. solve_decision. Defined.

Section Overlay.

(** The content pushed to an overlay is opaque to the class. *)
Context {ReactNode : Type}.

(** An entry [[number, ReactNode]] of [components]. *)
Definition item : Type := Z * ReactNode.

Record Overlay := mkOverlay {
  iid : Z;
  components : list item;
  subscribers : list callback
}.

(** The world: the overlays constructed so far, the cells of the containers
    mounted so far, and two logs that record what the methods call: the
    subscriber callbacks invoked, and the ids handed to content functions. *)
Record World := mkWorld {
  heap : list Overlay;
  cells : list (list item);
  notified : list callback;
  issued : list (ref * Z)
}.

Definition empty_world : World := mkWorld [] [] [] [].

(** How a call completed; the world after it is kept in both cases, since
    what was assigned before an exception stays assigned. *)
Inductive completion :=
  | Returned (w : World)
  | Thrown (w : World).

Definition world_of (c : completion) : World :=
  match c with Returned w | Thrown w => w end.

Definition set_iid (n : Z) (o : Overlay) : Overlay :=
  mkOverlay n (components o) (subscribers o).

Definition set_components (cs : list item) (o : Overlay) : Overlay :=
  mkOverlay (iid o) cs (subscribers o).

Definition set_subscribers (fs : list callback) (o : Overlay) : Overlay :=
  mkOverlay (iid o) (components o) fs.

Definition store (this : ref) (o : Overlay) (w : World) : World :=
  mkWorld (<[this := o]> (heap w)) (cells w) (notified w) (issued w).

(** [new Overlay()]: [iid = -1], no components, no subscribers. *)
Definition new_Overlay (w : World) : ref * World :=
  (length (heap w),
   mkWorld (heap w ++ [mkOverlay (-1) [] []]) (cells w) (notified w) (issued w)).

(** ** Notification *)

(** One call [fn()] of a subscriber: [setComponents(this.components)]. *)
Definition invoke (fn : callback) (w : World) : World :=
  match heap w !! cb_this fn with
  | Some o =>
      mkWorld (heap w) (<[cb_cell fn := components o]> (cells w))
              (notified w ++ [fn]) (issued w)
  | None => mkWorld (heap w) (cells w) (notified w ++ [fn]) (issued w)
  end.

(** [subscribers.forEach(fn => fn())]: front to back.  No callback touches
    the array it is taken from. *)
Definition forEach (fns : list callback) (w : World) : World :=
  foldl (fun w fn => invoke fn w) w fns.

(** ** The methods of the class *)

Definition dismissAll (this : ref) (w : World) : completion :=
  match heap w !! this with
  | None => Thrown w
  | Some o =>
      let o' := set_components [] o in
      Returned (forEach (subscribers o') (store this o' w))
  end.

(** The content function is called with the new id and either returns the
    content or throws ([None]). *)
Definition pushWithId (this : ref) (component : Z -> option ReactNode)
    (w : World) : completion :=
  match heap w !! this with
  | None => Thrown w
  | Some o =>
      let id := JS.incr (iid o) in
      let o1 := set_iid id o in
      let w1 := mkWorld (<[this := o1]> (heap w)) (cells w) (notified w)
                        (issued w ++ [(this, id)]) in
      match component id with
      | None => Thrown w1
      | Some node =>
          let o2 := set_components (components o1 ++ [(id, node)]) o1 in
          Returned (forEach (subscribers o2) (store this o2 w1))
      end
  end.

Definition pushLast (this : ref) (component : ReactNode) (w : World)
    : completion :=
  match heap w !! this with
  | None => Thrown w
  | Some o =>
      let o' := set_components (components o ++ [(-1, component)]) o in
      Returned (forEach (subscribers o') (store this o' w))
  end.

Definition dismissById (this : ref) (id : Z) (w : World) : completion :=
  match heap w !! this with
  | None => Thrown w
  | Some o =>
      let o' :=
        set_components
          (List.filter (fun it => negb (fst it =? id)) (components o)) o in
      Returned (forEach (subscribers o') (store this o' w))
  end.

Definition dismissLast (this : ref) (w : World) : completion :=
  match heap w !! this with
  | None => Thrown w
  | Some o =>
      let o' := set_components (JS.slice 0 (-1) (components o)) o in
      Returned (forEach (subscribers o') (store this o' w))
  end.

(** The argument of [push]: [typeof component] is ["function"] or not. *)
Inductive pushArg :=
  | Node (node : ReactNode)
  | Function (f : Z -> option ReactNode).

Definition push (this : ref) (component : pushArg) (w : World)
    : completion :=
  match component with
  | Function f => pushWithId this f w
  | Node node => pushLast this node w
  end.

(** The argument of [dismiss]: a number, or nothing. *)
Definition dismiss (this : ref) (id : option Z) (w : World) : completion :=
  match id with
  | Some n => dismissById this n w
  | None => dismissLast this w
  end.

(** ** The subscription life cycle of [Container] *)

(** [useState(this.components)] on the first render: a new cell holding
    the current list. *)
Definition Container_useState (this : ref) (w : World)
    : option (cell * World) :=
  match heap w !! this with
  | None => None
  | Some o =>
      Some (length (cells w),
            mkWorld (heap w) (cells w ++ [components o]) (notified w)
                    (issued w))
  end.

(** The effect: [subscription = this.subscribers.push(() => ...)]. *)
Definition Container_effect (this : ref) (c : cell) (w : World)
    : option (Z * World) :=
  match heap w !! this with
  | None => None
  | Some o =>
      let '(fns, subscription) := JS.push (Callback this c) (subscribers o) in
      Some (subscription, store this (set_subscribers fns o) w)
  end.

(** Mounting a container: the first render, then the effect.  The result is
    the cell of the container and the [subscription] that the clean-up
    closure keeps. *)
Definition Container_mount (this : ref) (w : World)
    : option (cell * Z * World) :=
  match Container_useState this w with
  | None => None
  | Some (c, w1) =>
      match Container_effect this c w1 with
      | None => None
      | Some (subscription, w2) => Some (c, subscription, w2)
      end
  end.

(** The clean-up of the effect: [this.subscribers.splice(subscription - 1)]. *)
Definition Container_cleanup (this : ref) (subscription : Z) (w : World)
    : World :=
  match heap w !! this with
  | None => w
  | Some o =>
      store this
        (set_subscribers (JS.splice (subscription - 1) (subscribers o)) o) w
  end.

(** ** Sequences of mutations *)

(** The five mutations of the public interface. *)
Inductive mutation :=
  | Push (component : pushArg)
  | Dismiss (id : option Z)
  | DismissAll.

Definition call (this : ref) (m : mutation) (w : World) : completion :=
  match m with
  | Push component => push this component w
  | Dismiss id => dismiss this id w
  | DismissAll => dismissAll this w
  end.

(** A caller that performs the mutations one after the other, going on
    after a call that threw. *)
Definition run (this : ref) (ms : list mutation) (w : World) : World :=
  foldl (fun w m => world_of (call this m w)) w ms.

(** The list of an overlay, [[]] for a reference that is not allocated. *)
Definition components_of (this : ref) (w : World) : list item :=
  match heap w !! this with
  | Some o => components o
  | None => []
  end.

(** The ids that the content functions pushed to [this] were called with. *)
Definition issued_to (this : ref) (w : World) : list Z :=
  omap (fun e => if decide (fst e = this) then Some (snd e) else None)
       (issued w).

(** The number of [push(contentFactory)] calls among [ms]. *)
Definition factory_calls (ms : list mutation) : nat :=
  length (List.filter
            (fun m => match m with Push (Function _) => true | _ => false end)
            ms).

(** A mutation whose content function, if it has one, returns when it is
    called with the id that overlay [o] gives it. *)
Definition returns (o : Overlay) (m : mutation) : Prop :=
  match m with
  | Push (Function f) => is_Some (f (JS.incr (iid o)))
  | _ => True
  end.

(** ** Well-formed worlds *)

(** The subscribers of the overlay at reference [r]: closures over [r]
    itself and over an allocated cell, each registered once. *)
Definition subscribers_ok (w : World) (r : ref) (o : Overlay) : Prop :=
  Forall (fun fn => cb_this fn = r /\ (cb_cell fn < length (cells w))%nat)
         (subscribers o)
  /\ NoDup (subscribers o).

Definition World_ok (w : World) : Prop :=
  (forall r o, heap w !! r = Some o -> subscribers_ok w r o)
  /\ Forall (fun e => (fst e < length (heap w))%nat) (issued w).

(** The tags of the items that were given an id: all but the sentinel. *)
Definition tags (l : list item) : list Z :=
  filter (fun t => t <> -1) (l.*1).

(** While the counter counts in steps of one, no two items of the list
    bear the same generated id, and no id in the list is ahead of the
    counter. *)
Definition ids_ok (o : Overlay) : Prop :=
  iid o < JS.MAX_EXACT ->
  NoDup (tags (components o))
  /\ Forall (fun t => t <= iid o) (tags (components o)).

Definition Ids_ok (w : World) : Prop := Forall ids_ok (heap w).

(** The four ways in which a mutation changes the counter and the list. *)
Inductive evolves (o o' : Overlay) : Prop :=
  | evolves_remove :
      iid o' = iid o -> components o' `sublist_of` components o ->
      evolves o o'
  | evolves_plain node :
      iid o' = iid o -> components o' = components o ++ [(-1, node)] ->
      evolves o o'
  | evolves_failed :
      iid o' = JS.incr (iid o) -> components o' = components o ->
      evolves o o'
  | evolves_generated node :
      iid o' = JS.incr (iid o) ->
      components o' = components o ++ [(JS.incr (iid o), node)] ->
      evolves o o'.

(** The worlds that a program gets to: overlays are constructed, containers
    are mounted and their effects cleaned up, mutations are called. *)
Inductive reachable : World -> Prop :=
  | reach_empty : reachable empty_world
  | reach_new w : reachable w -> reachable (snd (new_Overlay w))
  | reach_mount w this c s w' :
      reachable w -> Container_mount this w = Some (c, s, w') -> reachable w'
  | reach_cleanup w this s :
      reachable w -> reachable (Container_cleanup this s w)
  | reach_call w this m :
      reachable w -> reachable (world_of (call this m w)).

(** What [dismiss(id)] is said to do to the list: one item bearing [id] is
    taken out and the rest is as before. *)
Definition removes_one (id : Z) (before after : list item) : Prop :=
  exists l1 node l2, before = l1 ++ (id, node) :: l2 /\ after = l1 ++ l2.

End Overlay.

Arguments Overlay : clear implicits.
Arguments World : clear implicits.
Arguments completion : clear implicits.
Arguments pushArg : clear implicits.
Arguments mutation : clear implicits.
Arguments item : clear implicits.

(** ** The scenario of the specification, on string content *)

Module Scenario.

(** [id => "B" + id] *)
Definition B (id : Z) : option string := Some ("B" +:+ pretty id).

(** A registry that has just been constructed, alone in the world. *)
Definition start : World string := snd (new_Overlay empty_world).

Definition this : ref := fst (new_Overlay (@empty_world string)).

(** Mounting one more [<Container/>] of the overlay [this]: the cell of the
    container, its subscription, and the world after.  (The overlay is
    allocated in all the worlds below, so the default is never taken.) *)
Definition mounted (w : World string) : cell * Z * World string :=
  default (0%nat, 0, w) (Container_mount this w).

(** One overlay on which a first container is mounted, then a second one,
    and then the first one is unmounted: its clean-up runs with the
    subscription that its effect was given. *)
Definition first : cell * Z * World string := mounted start.

Definition second : cell * Z * World string := mounted (snd first).

Definition first_unmounted : World string :=
  Container_cleanup this (snd (fst first)) (snd second).

(** Two overlays, each with one mounted container. *)
Definition two_overlays : World string :=
  let w1 := snd (new_Overlay start) in
  let w2 := snd (mounted w1) in
  default w2 (fmap snd (Container_mount 1%nat w2)).

(** The first of the two after [push("A")] and [push(id => "B" + id)]. *)
Definition pushed : World string :=
  run this [Push (Node "A"); Push (Function B)] two_overlays.

Definition pushed_overlay : Overlay string :=
  mkOverlay 0 [(-1, "A"); (0, "B0")] [Callback this 0%nat].

Definition other_overlay : Overlay string :=
  mkOverlay (-1) [] [Callback 1%nat 1%nat].

(** A content function that throws. *)
Definition failing (id : Z) : option string := None.

(** Pushes with and without a content function, with removals in between. *)
Definition session : list (mutation string) :=
  [Push (Function B); Dismiss (Some 0); Push (Function B); DismissAll;
   Push (Node "A"); Push (Function failing); Push (Function B)].

End Scenario.

(** ** What [Container] renders *)

Section Render.

Context {ReactNode : Type}.

(** A composition function [(_: ReactNode[]) => ReactNode]. *)
Definition composer : Type := list ReactNode -> ReactNode.

(** The element that [Container] returns: a fragment around the node that a
    composition function made of the contents, or a fragment around one
    [<Fragment key={index}>] per item. *)
Inductive rendering :=
  | Composed (node : ReactNode)
  | Keyed (children : list (nat * ReactNode)).

(** The three returns of [Container].  [this_component] is the argument the
    overlay was constructed with, [props_component] is [props.component],
    and [state] is the list that the container's cell holds. *)
Definition Container_render (this_component props_component : option composer)
    (state : list (item ReactNode)) : rendering :=
  match props_component with
  | Some component => Composed (component (map snd state))
  | None =>
      match this_component with
      | Some component => Composed (component (map snd state))
      | None => Keyed (imap (fun index it => (index, snd it)) state)
      end
  end.

(** A render of the container whose cell is [c], in world [w]. *)
Definition Container_view (this_component props_component : option composer)
    (w : World ReactNode) (c : cell) : option rendering :=
  Container_render this_component props_component <$> cells w !! c.

(** ** One step of a program *)

(** What a program does next: it constructs an overlay, mounts a container
    (first render and effect with nothing in between), runs the clean-up of
    an effect, or calls a mutation. *)
Inductive step (w : World ReactNode) : World ReactNode -> Prop :=
  | step_new : step w (snd (new_Overlay w))
  | step_mount this c s w' :
      Container_mount this w = Some (c, s, w') -> step w w'
  | step_cleanup this s : step w (Container_cleanup this s w)
  | step_call this m : step w (world_of (call this m w)).

(** Any number of steps. *)
Inductive steps : World ReactNode -> World ReactNode -> Prop :=
  | steps_refl w : steps w w
  | steps_cons w1 w2 w3 : step w1 w2 -> steps w2 w3 -> steps w1 w3.

(** The steps that leave the first [p] callbacks of the array of [this] in
    place: all but the clean-up, on [this], of a subscription that is [p]
    or less, which cuts the array before position [p]. *)
Inductive later_step (this : ref) (p : nat) (w : World ReactNode)
    : World ReactNode -> Prop :=
  | later_new : later_step this p w (snd (new_Overlay w))
  | later_mount r c s w' :
      Container_mount r w = Some (c, s, w') -> later_step this p w w'
  | later_cleanup r s :
      r <> this \/ Z.of_nat p < s ->
      later_step this p w (Container_cleanup r s w)
  | later_call r m : later_step this p w (world_of (call r m w)).

Inductive later_steps (this : ref) (p : nat)
    : World ReactNode -> World ReactNode -> Prop :=
  | later_refl w : later_steps this p w w
  | later_cons w1 w2 w3 :
      later_step this p w1 w2 -> later_steps this p w2 w3 ->
      later_steps this p w1 w3.

(** No cell is written by the callbacks of two overlays. *)
Definition Owned (w : World ReactNode) : Prop :=
  forall r1 r2 o1 o2 fn1 fn2,
    heap w !! r1 = Some o1 -> heap w !! r2 = Some o2 ->
    fn1 ∈ subscribers o1 -> fn2 ∈ subscribers o2 ->
    cb_cell fn1 = cb_cell fn2 -> r1 = r2.

(** Every subscribed container holds the list of its overlay. *)
Definition Synced (w : World ReactNode) : Prop :=
  forall r o fn,
    heap w !! r = Some o -> fn ∈ subscribers o ->
    cells w !! cb_cell fn = Some (components o).

End Render.

Arguments composer : clear implicits.
Arguments rendering : clear implicits.

(** * Properties *)

(** ** Arrays *)

Lemma slice_drop_last {T} (l : list T) (x : T) :
  JS.slice 0 (-1) (l ++ [x]) = l.
Proof.
  unfold JS.slice, JS.relative. simpl.
  rewrite length_app. simpl.
  replace (Z.to_nat (Z.min 0 (Z.of_nat (length l + 1)))) with 0%nat by lia.
  replace (Z.to_nat (Z.max (Z.of_nat (length l + 1) + -1) 0) - 0)%nat
    with (length l) by lia.
  rewrite drop_0. apply take_app_length.
Qed.

Lemma slice_drop_last_nil {T} : JS.slice 0 (-1) (@nil T) = [].
Proof. reflexivity. Qed.

Lemma splice_take {T} (k : nat) (l : list T) :
  JS.splice (Z.of_nat k) l = take k l.
Proof.
  unfold JS.splice, JS.relative.
  destruct (Z.ltb_spec (Z.of_nat k) 0) as [?|_]; [lia|].
  destruct (decide (k <= length l)%nat).
  - f_equal. lia.
  - replace (Z.to_nat (Z.min (Z.of_nat k) (Z.of_nat (length l))))
      with (length l) by lia.
    rewrite firstn_all. symmetry. apply take_ge. lia.
Qed.

Lemma splice_prefix {T} (start : Z) (l : list T) :
  exists k, JS.splice start l = take k l.
Proof. unfold JS.splice. eauto. Qed.

Lemma filter_absent {T} (id : Z) (l : list (Z * T)) :
  id ∉ l.*1 -> List.filter (fun it => negb (fst it =? id)) l = l.
Proof.
  induction l as [|[n x] l IH]; simpl; [done|].
  rewrite not_elem_of_cons. intros [Hn Hl].
  destruct (Z.eqb_spec n id) as [->|_]; [done|].
  simpl. by rewrite IH.
Qed.

(** [slice(0, -1)] is the array without its last element. *)
Lemma slice_init {T} (l : list T) :
  JS.slice 0 (-1) l = take (length l - 1) l.
Proof.
  unfold JS.slice, JS.relative. simpl.
  replace (Z.to_nat (Z.min 0 (Z.of_nat (length l)))) with 0%nat by lia.
  replace (Z.to_nat (Z.max (Z.of_nat (length l) + -1) 0) - 0)%nat
    with (length l - 1)%nat by lia.
  by rewrite drop_0.
Qed.

(** [filter(it => it[0] != id)] keeps the items whose tag is not [id], each
    as often as it occurs and in the order of the array. *)
Lemma filter_tag_ne {T} (id : Z) (l : list (Z * T)) :
  List.filter (fun it => negb (fst it =? id)) l
  = filter (fun it => fst it <> id) l.
Proof.
  induction l as [|[n x] l IH]; [done|].
  rewrite filter_cons. simpl.
  destruct (Z.eqb_spec n id) as [->|Hne]; simpl.
  - by rewrite decide_False by (intros Hn; by apply Hn).
  - by rewrite decide_True, IH.
Qed.

Lemma filter_split {T} (id : Z) (l1 l2 : list (Z * T)) :
  List.filter (fun it => negb (fst it =? id)) (l1 ++ l2)
  = List.filter (fun it => negb (fst it =? id)) l1
    ++ List.filter (fun it => negb (fst it =? id)) l2.
Proof. apply List.filter_app. Qed.

Section Facts.

Context {ReactNode : Type}.

Implicit Types (w : World ReactNode) (o : Overlay ReactNode).
Implicit Types (fn : callback) (fns : list callback).

(** ** One pass over the subscribers *)

Lemma forEach_snoc fns fn w :
  forEach (fns ++ [fn]) w = invoke fn (forEach fns w).
Proof. unfold forEach. by rewrite foldl_app. Qed.

Lemma invoke_heap fn w : heap (invoke fn w) = heap w.
Proof. unfold invoke. by destruct (heap w !! cb_this fn). Qed.

Lemma invoke_issued fn w : issued (invoke fn w) = issued w.
Proof. unfold invoke. by destruct (heap w !! cb_this fn). Qed.

Lemma invoke_notified fn w : notified (invoke fn w) = notified w ++ [fn].
Proof. unfold invoke. by destruct (heap w !! cb_this fn). Qed.

Lemma invoke_cells_length fn w :
  length (cells (invoke fn w)) = length (cells w).
Proof.
  unfold invoke. destruct (heap w !! cb_this fn); simpl; [|done].
  by rewrite length_insert.
Qed.

Lemma forEach_heap fns w : heap (forEach fns w) = heap w.
Proof.
  induction fns as [|fn fns IH] using rev_ind; [done|].
  by rewrite forEach_snoc, invoke_heap.
Qed.

Lemma forEach_issued fns w : issued (forEach fns w) = issued w.
Proof.
  induction fns as [|fn fns IH] using rev_ind; [done|].
  by rewrite forEach_snoc, invoke_issued.
Qed.

Lemma forEach_notified fns w :
  notified (forEach fns w) = notified w ++ fns.
Proof.
  induction fns as [|fn fns IH] using rev_ind.
  - simpl. by rewrite app_nil_r.
  - by rewrite forEach_snoc, invoke_notified, IH, app_assoc.
Qed.

Lemma forEach_cells_length fns w :
  length (cells (forEach fns w)) = length (cells w).
Proof.
  induction fns as [|fn fns IH] using rev_ind; [done|].
  by rewrite forEach_snoc, invoke_cells_length.
Qed.

(** A cell that no callback of the pass writes to keeps its value. *)
Lemma forEach_cells_other fns w (c : cell) :
  c ∉ cb_cell <$> fns -> cells (forEach fns w) !! c = cells w !! c.
Proof.
  induction fns as [|fn fns IH] using rev_ind; [done|].
  rewrite fmap_app, not_elem_of_app. simpl.
  rewrite not_elem_of_cons. intros [Hfns [Hfn _]].
  rewrite forEach_snoc. unfold invoke.
  destruct (heap (forEach fns w) !! cb_this fn); simpl; [|by apply IH].
  rewrite list_lookup_insert_ne by done. by apply IH.
Qed.

(** After a pass over closures of [this], the cell of each of them holds the
    list that [this] has during the pass. *)
Lemma forEach_cells_this fns w (this : ref) o fn :
  heap w !! this = Some o ->
  Forall (fun fn => cb_this fn = this /\ (cb_cell fn < length (cells w))%nat)
         fns ->
  fn ∈ fns ->
  cells (forEach fns w) !! cb_cell fn = Some (components o).
Proof.
  intros Hthis. induction fns as [|fn' fns IH] using rev_ind.
  - by intros _ ?%elem_of_nil.
  - rewrite Forall_app, Forall_singleton. intros [Hfns [Hr Hc]] Hin.
    rewrite forEach_snoc. unfold invoke.
    rewrite forEach_heap, Hr, Hthis. simpl.
    destruct (decide (cb_cell fn' = cb_cell fn)) as [Heq|Hne].
    + rewrite Heq. apply list_lookup_insert_eq.
      rewrite forEach_cells_length. lia.
    + rewrite list_lookup_insert_ne by done.
      apply IH; [done|].
      apply elem_of_app in Hin as [?|Hin]; [done|].
      apply list_elem_of_singleton in Hin. by subst.
Qed.

(** ** What every mutation does to the world *)

Lemma call_unallocated (this : ref) (m : mutation ReactNode) w :
  heap w !! this = None -> call this m w = Thrown w.
Proof.
  intros H. destruct m as [[node|f]|[id|]|]; simpl;
    unfold pushLast, pushWithId, dismissById, dismissLast, dismissAll;
    by rewrite H.
Qed.

(** A mutation replaces the object at [this] by one with the same
    subscribers, allocates nothing, and logs at most the id it generated. *)
Lemma call_allocated (this : ref) (m : mutation ReactNode) w o :
  heap w !! this = Some o ->
  exists o',
    heap (world_of (call this m w)) = <[this := o']> (heap w)
    /\ subscribers o' = subscribers o
    /\ length (cells (world_of (call this m w))) = length (cells w)
    /\ (issued (world_of (call this m w)) = issued w
        \/ issued (world_of (call this m w))
           = issued w ++ [(this, JS.incr (iid o))]).
Proof.
  intros H. destruct m as [[node|f]|[id|]|]; simpl;
    unfold pushLast, pushWithId, dismissById, dismissLast, dismissAll;
    rewrite H; simpl.
  2: destruct (f (JS.incr (iid o))) as [node|]; simpl.
  all: eexists; rewrite ?forEach_heap, ?forEach_cells_length,
         ?forEach_issued; simpl;
       rewrite ?list_insert_insert_eq;
       (split; [reflexivity|]); split; [reflexivity|]; split; [done|];
       auto.
Qed.

Lemma call_heap_length (this : ref) (m : mutation ReactNode) w :
  length (heap (world_of (call this m w))) = length (heap w).
Proof.
  destruct (heap w !! this) as [o|] eqn:H.
  - destruct (call_allocated this m w o H) as (o' & -> & _).
    apply length_insert.
  - by rewrite call_unallocated.
Qed.

(** ** Well-formed worlds are all that a program sees *)

Lemma subscribers_ok_mono w w' (r : ref) o o' :
  (length (cells w) <= length (cells w'))%nat ->
  subscribers o' = subscribers o ->
  subscribers_ok w r o -> subscribers_ok w' r o'.
Proof.
  unfold subscribers_ok. intros Hlen ->. intros [Hall Hnd]. split; [|done].
  eapply Forall_impl; [exact Hall|]. simpl. intros fn [? ?]. split; [done|lia].
Qed.

Lemma World_ok_empty : World_ok (@empty_world ReactNode).
Proof.
  split; simpl; [|constructor].
  intros r o H. by rewrite lookup_nil in H.
Qed.

Lemma World_ok_new w : World_ok w -> World_ok (snd (new_Overlay w)).
Proof.
  intros [Hsub Hiss]. split; simpl.
  - intros r o. rewrite lookup_app_Some. intros [H|[_ H]].
    + eapply subscribers_ok_mono; [| |by apply Hsub]; done.
    + apply list_lookup_singleton_Some in H as [_ <-].
      split; simpl; constructor.
  - eapply Forall_impl; [exact Hiss|]. simpl. intros e ?.
    rewrite length_app. lia.
Qed.

Lemma World_ok_call (this : ref) (m : mutation ReactNode) w :
  World_ok w -> World_ok (world_of (call this m w)).
Proof.
  intros [Hsub Hiss].
  destruct (heap w !! this) as [o|] eqn:H;
    [|by rewrite call_unallocated].
  destruct (call_allocated this m w o H) as (o' & Hheap & Hfns & Hlen & His).
  split.
  - intros r o2. rewrite Hheap. intros Hr.
    destruct (decide (this = r)) as [<-|Hne].
    + rewrite list_lookup_insert_eq in Hr by by eapply lookup_lt_Some.
      injection Hr as <-.
      eapply subscribers_ok_mono; [| |by apply Hsub]; [lia|done].
    + rewrite list_lookup_insert_ne in Hr by done.
      eapply subscribers_ok_mono; [| |by apply Hsub]; [lia|done].
  - rewrite call_heap_length.
    destruct His as [->| ->]; [done|].
    apply Forall_app. split; [done|].
    apply Forall_singleton. simpl. by eapply lookup_lt_Some.
Qed.

Lemma World_ok_cleanup (this : ref) (subscription : Z) w :
  World_ok w -> World_ok (Container_cleanup this subscription w).
Proof.
  intros [Hsub Hiss]. unfold Container_cleanup.
  destruct (heap w !! this) as [o|] eqn:H; [|done].
  split; simpl.
  - intros r o2 Hr.
    destruct (decide (this = r)) as [<-|Hne].
    + rewrite list_lookup_insert_eq in Hr by by eapply lookup_lt_Some.
      injection Hr as <-.
      destruct (Hsub _ _ H) as [Hall Hnd]. unfold subscribers_ok. simpl.
      destruct (splice_prefix (subscription - 1) (subscribers o)) as [k ->].
      split.
      * by apply Forall_take.
      * eapply sublist_NoDup; [exact Hnd|apply sublist_take].
    + rewrite list_lookup_insert_ne in Hr by done. by apply Hsub.
  - by rewrite length_insert.
Qed.

Lemma World_ok_mount (this : ref) w (c : cell) (s : Z) w' :
  World_ok w -> Container_mount this w = Some (c, s, w') -> World_ok w'.
Proof.
  intros [Hsub Hiss]. unfold Container_mount, Container_useState,
    Container_effect. simpl.
  destruct (heap w !! this) as [o|] eqn:H; [|done]. simpl.
  rewrite H. simpl. intros [= <- <- <-].
  split; simpl.
  - intros r o2 Hr.
    destruct (decide (this = r)) as [<-|Hne].
    + rewrite list_lookup_insert_eq in Hr by by eapply lookup_lt_Some.
      injection Hr as <-.
      destruct (Hsub _ _ H) as [Hall Hnd]. unfold subscribers_ok. simpl.
      rewrite length_app. simpl. split.
      * apply Forall_app. split.
        -- eapply Forall_impl; [exact Hall|]. simpl. intros fn [? ?].
           split; [done|lia].
        -- apply Forall_singleton. simpl. split; [done|lia].
      * apply NoDup_app. split; [done|]. split; [|apply NoDup_singleton].
        intros fn Hin ->%list_elem_of_singleton.
        rewrite Forall_forall in Hall. apply Hall in Hin. simpl in Hin. lia.
    + rewrite list_lookup_insert_ne in Hr by done.
      eapply subscribers_ok_mono; [| |by apply Hsub]; [|done].
      simpl. rewrite length_app. lia.
  - by rewrite length_insert.
Qed.

Lemma reachable_ok w : reachable w -> World_ok w.
Proof.
  induction 1;
    eauto using World_ok_empty, World_ok_new, World_ok_mount,
      World_ok_cleanup, World_ok_call.
Qed.

(** Mounting registers the new callback behind all earlier ones, and the
    subscription it keeps is the new length of the array. *)
Lemma Container_mount_appends (this : ref) w o :
  heap w !! this = Some o ->
  exists w',
    Container_mount this w
    = Some (length (cells w), Z.of_nat (length (subscribers o)) + 1, w')
    /\ heap w' !! this
       = Some (set_subscribers
                 (subscribers o ++ [Callback this (length (cells w))]) o).
Proof.
  intros H. unfold Container_mount, Container_useState, Container_effect.
  rewrite H. simpl. rewrite H. simpl. eexists. split; [reflexivity|].
  simpl. apply list_lookup_insert_eq. by eapply lookup_lt_Some.
Qed.

(** The clean-up cuts the array at position [subscription - 1]: what was
    registered at or after that position is gone. *)
Lemma Container_cleanup_truncates (this : ref) w o (k : nat) :
  heap w !! this = Some o ->
  heap (Container_cleanup this (Z.of_nat k + 1) w) !! this
  = Some (set_subscribers (take k (subscribers o)) o).
Proof.
  intros H. unfold Container_cleanup. rewrite H. simpl.
  replace (Z.of_nat k + 1 - 1) with (Z.of_nat k) by lia.
  rewrite splice_take. apply list_lookup_insert_eq. by eapply lookup_lt_Some.
Qed.

(** ** Assigning the object, then telling the subscribers *)

(** Every method ends in the same two statements: [this] is given its new
    fields, and the subscribers are called.  The pass leaves the heap as the
    assignment made it, extends the log by the whole array, front to back,
    and every callback of the array has read the new list. *)
Lemma publish (this : ref) o' w :
  (this < length (heap w))%nat ->
  Forall (fun fn => cb_this fn = this /\ (cb_cell fn < length (cells w))%nat)
         (subscribers o') ->
  heap (forEach (subscribers o') (store this o' w)) !! this = Some o'
  /\ notified (forEach (subscribers o') (store this o' w))
     = notified w ++ subscribers o'
  /\ forall fn, fn ∈ subscribers o' ->
       cells (forEach (subscribers o') (store this o' w)) !! cb_cell fn
       = Some (components o').
Proof.
  intros Hlt Hall.
  assert (Hthis : heap (store this o' w) !! this = Some o')
    by (simpl; by apply list_lookup_insert_eq).
  split; [by rewrite forEach_heap|].
  split; [by rewrite forEach_notified|].
  intros fn Hin. by eapply forEach_cells_this.
Qed.

(** The counter and the log of generated ids across one call. *)
Lemma call_counter (this : ref) (m : mutation ReactNode) w o :
  heap w !! this = Some o ->
  exists o',
    heap (world_of (call this m w)) !! this = Some o'
    /\ iid o'
       = match m with Push (Function _) => JS.incr (iid o) | _ => iid o end
    /\ issued_to this (world_of (call this m w))
       = issued_to this w
         ++ match m with
            | Push (Function _) => [JS.incr (iid o)]
            | _ => []
            end.
Proof.
  intros H. assert (Hlt := lookup_lt_Some _ _ _ H).
  destruct m as [[node|f]|[id|]|]; simpl;
    unfold pushLast, pushWithId, dismissById, dismissLast, dismissAll;
    rewrite H; simpl.
  2: destruct (f (JS.incr (iid o))) as [node|]; simpl.
  all: eexists; unfold issued_to;
       rewrite ?forEach_heap, ?forEach_issued; simpl;
       rewrite ?list_insert_insert_eq, ?omap_app; simpl;
       rewrite ?decide_True by done; rewrite ?app_nil_r;
       (split; [by apply list_lookup_insert_eq|]); split; reflexivity.
Qed.

(** The overlays other than the one a method is called on are not touched. *)
Lemma call_other (this other : ref) (m : mutation ReactNode) w :
  this <> other ->
  heap (world_of (call this m w)) !! other = heap w !! other.
Proof.
  intros Hne. destruct (heap w !! this) as [o|] eqn:H.
  - destruct (call_allocated this m w o H) as (o' & -> & _).
    by apply list_lookup_insert_ne.
  - by rewrite call_unallocated.
Qed.

(** What a call adds to the log of notifications is either nothing (the
    content function threw) or the subscribers of [this]. *)
Lemma call_notified (this : ref) (m : mutation ReactNode) w o :
  heap w !! this = Some o ->
  notified (world_of (call this m w)) = notified w
  \/ notified (world_of (call this m w)) = notified w ++ subscribers o.
Proof.
  intros H.
  destruct m as [[node|f]|[id|]|]; simpl;
    unfold pushLast, pushWithId, dismissById, dismissLast, dismissAll;
    rewrite H; simpl.
  2: destruct (f (JS.incr (iid o))) as [node|]; simpl.
  all: rewrite ?forEach_notified; simpl; auto.
Qed.

(** A call returns unless the content function throws. *)
Lemma call_returns (this : ref) (m : mutation ReactNode) w o :
  heap w !! this = Some o -> returns o m ->
  exists o' w1,
    call this m w = Returned (forEach (subscribers o') (store this o' w1))
    /\ subscribers o' = subscribers o
    /\ length (heap w1) = length (heap w)
    /\ cells w1 = cells w
    /\ notified w1 = notified w.
Proof.
  intros H Hret.
  destruct m as [[node|f]|[id|]|]; simpl in Hret;
    unfold call, push, dismiss,
      pushLast, pushWithId, dismissById, dismissLast, dismissAll;
    rewrite H; cbv beta iota zeta.
  2: destruct Hret as [node ->].
  all: do 2 eexists; split; [reflexivity|]; simpl;
       rewrite ?length_insert; done.
Qed.

(** The list and the counter that a mutation which returns has assigned
    when it starts to call the subscribers. *)
Lemma call_assigns (this : ref) (m : mutation ReactNode) w o :
  heap w !! this = Some o -> returns o m ->
  exists o' w1,
    call this m w = Returned (forEach (subscribers o') (store this o' w1))
    /\ subscribers o' = subscribers o
    /\ length (heap w1) = length (heap w)
    /\ cells w1 = cells w
    /\ notified w1 = notified w
    /\ match m with
       | Push (Node node) =>
           iid o' = iid o /\ components o' = components o ++ [(-1, node)]
       | Push (Function f) =>
           iid o' = JS.incr (iid o)
           /\ exists node,
                f (JS.incr (iid o)) = Some node
                /\ components o' = components o ++ [(JS.incr (iid o), node)]
       | Dismiss (Some id) =>
           iid o' = iid o
           /\ components o' = filter (fun it => fst it <> id) (components o)
       | Dismiss None =>
           iid o' = iid o
           /\ components o'
              = take (length (components o) - 1) (components o)
       | DismissAll => iid o' = iid o /\ components o' = []
       end.
Proof.
  intros H Hret.
  destruct m as [[node|f]|[id|]|]; simpl in Hret;
    unfold call, push, dismiss,
      pushLast, pushWithId, dismissById, dismissLast, dismissAll;
    rewrite H; cbv beta iota zeta.
  2: destruct Hret as [node Hf]; rewrite Hf.
  all: do 2 eexists; split; [reflexivity|]; simpl;
       rewrite ?length_insert; do 4 (split; [done|]).
  - done.
  - split; [done|]. by exists node.
  - split; [done|]. apply filter_tag_ne.
  - split; [done|]. apply slice_init.
  - done.
Qed.

(** A new overlay is at a reference that nothing used before. *)
Lemma new_Overlay_fresh w :
  heap w !! fst (new_Overlay w) = None
  /\ heap (snd (new_Overlay w)) !! fst (new_Overlay w)
     = Some (mkOverlay (-1) [] [])
  /\ forall r o, heap w !! r = Some o ->
       heap (snd (new_Overlay w)) !! r = Some o.
Proof.
  simpl. split; [by apply lookup_ge_None_2|]. split.
  - rewrite lookup_app_r by done. by rewrite Nat.sub_diag.
  - intros r o Hr. by apply lookup_app_l_Some.
Qed.

Lemma new_Overlay_issued w :
  World_ok w -> issued_to (fst (new_Overlay w)) (snd (new_Overlay w)) = [].
Proof.
  intros [_ Hiss]. unfold issued_to. simpl.
  induction (issued w) as [|e l IH]; [done|].
  apply Forall_cons in Hiss as [He Hl]. simpl.
  rewrite decide_False by (unfold ref in *; lia). by apply IH.
Qed.

(** Along a sequence of mutations the ids handed out count up from the
    counter, as long as they stay where a number counts in steps of one. *)
Lemma run_counter (this : ref) (ms : list (mutation ReactNode)) w o :
  heap w !! this = Some o ->
  iid o + Z.of_nat (factory_calls ms) <= JS.MAX_EXACT ->
  issued_to this (run this ms w)
  = issued_to this w ++ seqZ (iid o + 1) (Z.of_nat (factory_calls ms)).
Proof.
  revert w o. induction ms as [|m ms IH]; intros w o H Hk.
  - simpl. by rewrite app_nil_r.
  - destruct (call_counter this m w o H) as (o' & H' & Hiid & Hiss).
    change (run this (m :: ms) w) with (run this ms (world_of (call this m w))).
    assert (Hcases :
      (factory_calls (m :: ms) = factory_calls ms
       /\ iid o' = iid o
       /\ issued_to this (world_of (call this m w)) = issued_to this w)
      \/ (factory_calls (m :: ms) = S (factory_calls ms)
          /\ iid o' = iid o + 1
          /\ issued_to this (world_of (call this m w))
             = issued_to this w ++ [iid o + 1])).
    { destruct m as [[node|f]|id|]; try (left; rewrite Hiss, app_nil_r; done).
      right. split; [done|].
      assert (JS.incr (iid o) = iid o + 1) as Hincr.
      { unfold JS.incr. change (factory_calls (Push (Function f) :: ms))
          with (S (factory_calls ms)) in Hk.
        destruct (Z.ltb_spec (iid o) JS.MAX_EXACT); lia. }
      by rewrite Hiid, Hiss, Hincr. }
    destruct Hcases as [(Hn & Hi & Hl)|(Hn & Hi & Hl)].
    + rewrite (IH _ o' H') by lia. by rewrite Hn, Hi, Hl.
    + rewrite (IH _ o' H') by lia. rewrite Hn, Hi, Hl, <- app_assoc.
      f_equal. rewrite (seqZ_cons (iid o + 1)) by lia.
      simpl. do 2 f_equal; lia.
Qed.

(** After the clean-up of the subscription [k + 1], a mutation calls the
    first [k] subscribers only: the one registered at position [k] and all
    those registered behind it are not called any more. *)
Lemma cleanup_then_call (this : ref) (k : nat) (m : mutation ReactNode) w o :
  heap w !! this = Some o ->
  returns o m ->
  notified (world_of (call this m (Container_cleanup this (Z.of_nat k + 1) w)))
  = notified w ++ take k (subscribers o).
Proof.
  intros H Hret.
  pose proof (Container_cleanup_truncates this w o k H) as H1.
  assert (Hnot : notified (Container_cleanup this (Z.of_nat k + 1) w)
                 = notified w).
  { unfold Container_cleanup. by rewrite H. }
  assert (Hret1 : returns (set_subscribers (take k (subscribers o)) o) m).
  { by destruct m as [[node|f]|id|]. }
  destruct (call_returns this m _ _ H1 Hret1)
    as (o' & w1 & -> & Hfns & _ & _ & Hnot1).
  simpl. rewrite forEach_notified. simpl.
  by rewrite Hfns, Hnot1, Hnot.
Qed.

(** ** Generated ids in the list *)

Lemma tags_app (l1 l2 : list (item ReactNode)) :
  tags (l1 ++ l2) = tags l1 ++ tags l2.
Proof. unfold tags. by rewrite fmap_app, filter_app. Qed.

Lemma tags_cons (id : Z) (node : ReactNode) (l : list (item ReactNode)) :
  tags ((id, node) :: l) = if decide (id = -1) then tags l else id :: tags l.
Proof.
  unfold tags. rewrite fmap_cons, filter_cons. simpl.
  destruct (decide (id = -1)) as [->|Hne].
  - by rewrite decide_False by (intros Hn; by apply Hn).
  - by rewrite decide_True.
Qed.

Lemma tags_sublist (l1 l2 : list (item ReactNode)) :
  l1 `sublist_of` l2 -> tags l1 `sublist_of` tags l2.
Proof.
  induction 1 as [|[id node] l1 l2 _ IH|[id node] l1 l2 _ IH].
  - constructor.
  - rewrite !tags_cons. destruct (decide (id = -1)); [done|by constructor].
  - rewrite tags_cons. destruct (decide (id = -1)); [done|by constructor].
Qed.

Lemma filter_sublist {T} (f : T -> bool) (l : list T) :
  List.filter f l `sublist_of` l.
Proof.
  induction l as [|x l IH]; simpl; [constructor|].
  destruct (f x); by constructor.
Qed.

Lemma slice_sublist {T} (s e : Z) (l : list T) :
  JS.slice s e l `sublist_of` l.
Proof.
  unfold JS.slice. etrans; [apply sublist_take|apply sublist_drop].
Qed.

Lemma evolves_ids_ok o o' : evolves o o' -> ids_ok o -> ids_ok o'.
Proof.
  unfold ids_ok. intros Hev Hok.
  assert (Hincr : JS.incr (iid o) < JS.MAX_EXACT ->
                  iid o < JS.MAX_EXACT /\ JS.incr (iid o) = iid o + 1).
  { unfold JS.incr. destruct (Z.ltb_spec (iid o) JS.MAX_EXACT); lia. }
  destruct Hev as [Hi Hl|node Hi Hl|Hi Hl|node Hi Hl]; rewrite Hi; intros Hb.
  - destruct (Hok Hb) as [Hnd Hall]. apply tags_sublist in Hl. split.
    + by eapply sublist_NoDup.
    + rewrite Forall_forall in Hall. apply Forall_forall.
      intros t Ht. apply Hall. by eapply elem_of_sublist.
  - rewrite Hl, tags_app, tags_cons. simpl. rewrite app_nil_r. by apply Hok.
  - destruct (Hincr Hb) as [Hb' ->]. destruct (Hok Hb') as [Hnd Hall].
    rewrite Hl. split; [done|].
    eapply Forall_impl; [exact Hall|]. simpl. intros; lia.
  - destruct (Hincr Hb) as [Hb' Heq]. destruct (Hok Hb') as [Hnd Hall].
    rewrite Hl, tags_app, tags_cons, Heq.
    destruct (decide (iid o + 1 = -1)); simpl; rewrite ?app_nil_r.
    + split; [done|]. eapply Forall_impl; [exact Hall|]. simpl. intros; lia.
    + split.
      * apply NoDup_app. split; [done|]. split; [|apply NoDup_singleton].
        intros t Ht ->%list_elem_of_singleton.
        rewrite Forall_forall in Hall. apply Hall in Ht. lia.
      * apply Forall_app. split.
        -- eapply Forall_impl; [exact Hall|]. simpl. intros; lia.
        -- apply Forall_singleton. lia.
Qed.

Lemma call_evolves (this : ref) (m : mutation ReactNode) w o :
  heap w !! this = Some o ->
  exists o',
    heap (world_of (call this m w)) = <[this := o']> (heap w)
    /\ evolves o o'.
Proof.
  intros H. destruct m as [[node|f]|[id|]|]; simpl;
    unfold pushLast, pushWithId, dismissById, dismissLast, dismissAll;
    rewrite H; simpl.
  2: destruct (f (JS.incr (iid o))) as [node|]; simpl.
  all: eexists; rewrite ?forEach_heap; simpl;
       rewrite ?list_insert_insert_eq; (split; [reflexivity|]).
  - by apply (evolves_plain _ _ node).
  - by apply (evolves_generated _ _ node).
  - by apply evolves_failed.
  - apply evolves_remove; [done|]. apply filter_sublist.
  - apply evolves_remove; [done|]. apply slice_sublist.
  - apply evolves_remove; [done|]. apply sublist_nil_l.
Qed.

Lemma reachable_ids_ok w : reachable w -> Ids_ok w.
Proof.
  unfold Ids_ok. induction 1 as [|w _ IH|w this c s w' _ IH Hm|w this s _ IH
                                 |w this m _ IH].
  - constructor.
  - simpl. apply Forall_app. split; [done|]. apply Forall_singleton.
    intros _. split; constructor.
  - unfold Container_mount, Container_useState, Container_effect in Hm.
    destruct (heap w !! this) as [o|] eqn:H; [|done]. simpl in Hm.
    rewrite H in Hm. simpl in Hm. injection Hm as <- <- <-. simpl.
    apply Forall_insert; [done|].
    rewrite Forall_lookup in IH. exact (IH _ _ H).
  - unfold Container_cleanup.
    destruct (heap w !! this) as [o|] eqn:H; [|done]. simpl.
    apply Forall_insert; [done|].
    rewrite Forall_lookup in IH. exact (IH _ _ H).
  - destruct (heap w !! this) as [o|] eqn:H;
      [|by rewrite call_unallocated].
    destruct (call_evolves this m w o H) as (o' & -> & Hev).
    apply Forall_insert; [done|].
    rewrite Forall_lookup in IH. eapply evolves_ids_ok; [exact Hev|].
    exact (IH _ _ H).
Qed.

(** X14: in every world that a program gets to, an id other than the
    sentinel is borne by one item at most, as long as the counter counts. *)
Lemma generated_id_borne_once (this : ref) (id : Z) (node : ReactNode) w o :
  reachable w ->
  heap w !! this = Some o ->
  iid o < JS.MAX_EXACT ->
  id <> -1 ->
  (id, node) ∈ components o ->
  exists l1 l2,
    components o = l1 ++ (id, node) :: l2 /\ (id ∉ l1.*1) /\ (id ∉ l2.*1).
Proof.
  intros Hreach H Hb Hid Hin.
  apply reachable_ids_ok in Hreach. unfold Ids_ok in Hreach.
  rewrite Forall_lookup in Hreach. destruct (Hreach _ _ H Hb) as [Hnd _].
  apply list_elem_of_split in Hin as (l1 & l2 & Hl). exists l1, l2.
  split; [done|].
  rewrite Hl, tags_app, tags_cons, decide_False in Hnd by done.
  apply NoDup_app in Hnd as (_ & Hdisj & Hnd2).
  apply NoDup_cons in Hnd2 as [Hnot _].
  assert (Htag : forall l : list (item ReactNode), id ∈ l.*1 -> id ∈ tags l).
  { intros l Hl1. unfold tags. by apply list_elem_of_filter. }
  split.
  - intros Hl1%Htag. apply (Hdisj _ Hl1). by left.
  - intros Hl2%Htag. by apply Hnot.
Qed.

End Facts.

(** * The claims of the specification *)

Section Claims.

Context {ReactNode : Type}.

Implicit Types (w : World ReactNode) (o : Overlay ReactNode).

(** C2, as the code has it: when exactly one item of the list bears [id],
    [dismiss(id)] returns, that item is gone, no other item is, and the
    items that stay are in the order they were in. *)
Theorem dismiss_id_removes_that_item (this : ref) (id : Z) w o
    (l1 l2 : list (item ReactNode)) (node : ReactNode) :
  heap w !! this = Some o ->
  components o = l1 ++ (id, node) :: l2 ->
  id ∉ l1.*1 -> id ∉ l2.*1 ->
  exists w',
    dismiss this (Some id) w = Returned w'
    /\ components_of this w' = l1 ++ l2
    /\ removes_one id (components o) (components_of this w').
Proof.
  intros H Hl H1 H2. assert (Hlt := lookup_lt_Some _ _ _ H).
  simpl. unfold dismissById. rewrite H. simpl. eexists. split; [reflexivity|].
  assert (Hafter :
    components_of this
      (forEach (subscribers o)
         (store this
            (set_components
               (List.filter (fun it => negb (fst it =? id)) (components o)) o)
            w))
    = l1 ++ l2).
  { unfold components_of. rewrite forEach_heap. simpl.
    rewrite list_lookup_insert_eq by done. simpl.
    rewrite Hl, filter_split. simpl. rewrite Z.eqb_refl. simpl.
    by rewrite !filter_absent. }
  split; [exact Hafter|].
  exists l1, node, l2. by rewrite Hafter.
Qed.

(** C3: on a registry that has just been constructed, whatever sequence of
    [push], [dismiss] and [dismissAll] calls is made, the content functions
    are called with the ids 0, 1, 2, ... in this order: no id is handed out
    twice and each one is larger than all before it, removals or not.  The
    number of [push(contentFactory)] calls is within the range in which the
    counter, a JavaScript number, counts in steps of one. *)
Theorem generated_ids_never_repeat (w0 : World ReactNode)
    (ms : list (mutation ReactNode)) :
  World_ok w0 ->
  Z.of_nat (factory_calls ms) <= JS.MAX_EXACT + 1 ->
  let this := fst (new_Overlay w0) in
  let ids := issued_to this (run this ms (snd (new_Overlay w0))) in
  ids = seqZ 0 (Z.of_nat (factory_calls ms))
  /\ NoDup ids
  /\ forall (i j : nat) (a b : Z),
       (i < j)%nat -> ids !! i = Some a -> ids !! j = Some b -> a < b.
Proof.
  intros Hok Hk this ids.
  destruct (new_Overlay_fresh w0) as (_ & Hnew & _).
  assert (Hids : ids = seqZ 0 (Z.of_nat (factory_calls ms))).
  { unfold ids. rewrite (run_counter _ _ _ _ Hnew) by (simpl; lia).
    unfold this. by rewrite new_Overlay_issued. }
  split; [exact Hids|]. rewrite Hids. split; [apply NoDup_seqZ|].
  intros i j a b Hij [-> _]%lookup_seqZ [-> _]%lookup_seqZ. lia.
Qed.


(** C6: [dismiss()] returns on every registry; the last item of the list is
    gone, whatever its tag, and nothing else is; on an empty list the list
    stays empty. *)
Theorem dismiss_removes_last (this : ref) w o :
  heap w !! this = Some o ->
  exists w',
    dismiss this None w = Returned w'
    /\ (forall l it, components o = l ++ [it] -> components_of this w' = l)
    /\ (components o = [] -> components_of this w' = []).
Proof.
  intros H. assert (Hlt := lookup_lt_Some _ _ _ H).
  simpl. unfold dismissLast, components_of. rewrite H. simpl.
  eexists. split; [reflexivity|].
  rewrite forEach_heap. simpl. rewrite list_lookup_insert_eq by done. simpl.
  split.
  - intros l it ->. apply slice_drop_last.
  - by intros ->.
Qed.

(** C7: a mutation whose content function returns has, when it returns
    itself, assigned the new list (the content appended with the sentinel
    tag, the content appended with the new id, the items with another tag,
    the list without its last item, or the empty list) and called every
    callback of the subscriber array once, from the first registered to
    the last; each of them has read the list as the mutation left it. *)
Theorem mutation_notifies_every_subscriber (this : ref)
    (m : mutation ReactNode) w o :
  World_ok w ->
  heap w !! this = Some o ->
  returns o m ->
  exists w' o',
    call this m w = Returned w'
    /\ heap w' !! this = Some o'
    /\ subscribers o' = subscribers o
    /\ match m with
       | Push (Node node) =>
           iid o' = iid o /\ components o' = components o ++ [(-1, node)]
       | Push (Function f) =>
           iid o' = JS.incr (iid o)
           /\ exists node,
                f (JS.incr (iid o)) = Some node
                /\ components o' = components o ++ [(JS.incr (iid o), node)]
       | Dismiss (Some id) =>
           iid o' = iid o
           /\ components o' = filter (fun it => fst it <> id) (components o)
       | Dismiss None =>
           iid o' = iid o
           /\ components o'
              = take (length (components o) - 1) (components o)
       | DismissAll => iid o' = iid o /\ components o' = []
       end
    /\ notified w' = notified w ++ subscribers o
    /\ NoDup (subscribers o)
    /\ forall fn, fn ∈ subscribers o ->
         cells w' !! cb_cell fn = Some (components o').
Proof.
  intros [Hsub _] H Hret. assert (Hlt := lookup_lt_Some _ _ _ H).
  destruct (Hsub _ _ H) as [Hall Hnd].
  destruct (call_assigns this m w o H Hret)
    as (o' & w1 & -> & Hfns & Hlen & Hcells & Hnot & Hlist).
  destruct (publish this o' w1) as (Hheap & Hlog & Hread).
  { by rewrite Hlen. }
  { by rewrite Hfns, Hcells. }
  exists (forEach (subscribers o') (store this o' w1)), o'.
  rewrite Hnot in Hlog. rewrite <- Hfns in Hnd |- *. done.
Qed.

(** C8: no mutation throws when its content function, if it has one, does
    not: the call returns.  In particular [dismiss(id)] with an id that no
    item bears and [dismiss()] on an empty list return and leave the list
    as it was. *)
Theorem mutations_do_not_throw (this : ref) (m : mutation ReactNode) w o :
  heap w !! this = Some o ->
  returns o m ->
  (exists w', call this m w = Returned w')
  /\ (forall id, m = Dismiss (Some id) -> id ∉ (components o).*1 ->
        components_of this (world_of (call this m w)) = components o)
  /\ (m = Dismiss None -> components o = [] ->
        components_of this (world_of (call this m w)) = []).
Proof.
  intros H Hret. assert (Hlt := lookup_lt_Some _ _ _ H). split; [|split].
  - destruct (call_returns this m w o H Hret) as (o' & w1 & -> & _). eauto.
  - intros id -> Hid. simpl. unfold dismissById, components_of.
    rewrite H. simpl. rewrite forEach_heap. simpl.
    rewrite list_lookup_insert_eq by done. simpl. by apply filter_absent.
  - intros -> Hnil. simpl. unfold dismissLast, components_of.
    rewrite H. simpl. rewrite forEach_heap. simpl.
    rewrite list_lookup_insert_eq by done. simpl. by rewrite Hnil.
Qed.

(** C9: a mutation of one overlay leaves every other overlay as it was, its
    list, its counter and its subscriber array, and calls none of the other
    overlay's subscribers. *)
Theorem overlays_do_not_interfere (this other : ref)
    (m : mutation ReactNode) w o1 o2 :
  World_ok w ->
  this <> other ->
  heap w !! this = Some o1 ->
  heap w !! other = Some o2 ->
  heap (world_of (call this m w)) !! other = Some o2
  /\ exists fns,
       notified (world_of (call this m w)) = notified w ++ fns
       /\ forall fn, fn ∈ fns -> fn ∉ subscribers o2.
Proof.
  intros [Hsub _] Hne H1 H2. split; [by rewrite call_other|].
  destruct (Hsub _ _ H1) as [Hall1 _]. destruct (Hsub _ _ H2) as [Hall2 _].
  rewrite Forall_forall in Hall1. rewrite Forall_forall in Hall2.
  destruct (call_notified this m w o1 H1) as [->| ->].
  - exists []. rewrite app_nil_r. split; [done|]. by intros fn ?%elem_of_nil.
  - exists (subscribers o1). split; [done|].
    intros fn Hin1 Hin2.
    apply Hall1 in Hin1 as [Hr1 _]. apply Hall2 in Hin2 as [Hr2 _].
    congruence.
Qed.

(** C10: when the content function throws, [push] throws; the list and the
    subscriber array are as before, no subscriber has been called and no
    container has been given a list, but the counter has been incremented:
    the id the content function was called with is not handed out again,
    the next content function is called with the one after it. *)
Theorem throwing_factory_consumes_id (this : ref)
    (f : Z -> option ReactNode) w o :
  heap w !! this = Some o ->
  iid o + 1 < JS.MAX_EXACT ->
  f (iid o + 1) = None ->
  exists w',
    push this (Function f) w = Thrown w'
    /\ heap w' !! this = Some (set_iid (iid o + 1) o)
    /\ cells w' = cells w
    /\ notified w' = notified w
    /\ issued w' = issued w ++ [(this, iid o + 1)]
    /\ forall g,
         issued (world_of (push this (Function g) w'))
         = issued w ++ [(this, iid o + 1); (this, iid o + 2)].
Proof.
  intros H Hb Hf. assert (Hlt := lookup_lt_Some _ _ _ H).
  assert (JS.incr (iid o) = iid o + 1) as Hincr.
  { unfold JS.incr. destruct (Z.ltb_spec (iid o) JS.MAX_EXACT); lia. }
  assert (JS.incr (iid o + 1) = iid o + 2) as Hincr'.
  { unfold JS.incr. destruct (Z.ltb_spec (iid o + 1) JS.MAX_EXACT); lia. }
  simpl. unfold pushWithId at 1. rewrite H. simpl. rewrite Hincr, Hf.
  eexists. split; [reflexivity|]. simpl.
  split; [by apply list_lookup_insert_eq|]. do 3 (split; [done|]).
  intros g. unfold pushWithId. simpl.
  rewrite list_lookup_insert_eq by done. simpl. rewrite Hincr'.
  destruct (g (iid o + 2)); simpl; rewrite ?forEach_issued; simpl;
    by rewrite <- app_assoc.
Qed.

End Claims.

(** * The claims on concrete registries *)

Section Concrete.

Import Scenario.

Lemma two_overlays_reachable : reachable two_overlays.
Proof.
  apply (reach_mount (snd (mounted (snd (new_Overlay start))))
           1%nat 1%nat 1); [|reflexivity].
  apply (reach_mount (snd (new_Overlay start)) 0%nat 0%nat 1); [|reflexivity].
  apply reach_new. apply (reach_new empty_world), reach_empty.
Qed.

Lemma pushed_reachable : reachable pushed.
Proof.
  apply (reach_call _ this (Push (Function B))).
  apply (reach_call _ this (Push (Node "A"))).
  apply two_overlays_reachable.
Qed.

Lemma pushed_lookup :
  heap pushed !! this = Some pushed_overlay
  /\ heap pushed !! 1%nat = Some other_overlay.
Proof. split; vm_compute; reflexivity. Qed.

(** C1, on the code: with two containers mounted on one overlay, a push
    calls the callbacks of both.  Once the container mounted first is
    unmounted, the subscriber array is empty: the callback of the second
    container, which is still mounted, went with it, so the next push calls
    nobody and the second container keeps showing the old, empty list. *)
Theorem unmount_drops_later_subscribers :
  subscribers <$> heap (snd second) !! this
  = Some [Callback this 0%nat; Callback this 1%nat]
  /\ notified (world_of (push this (Node "x") (snd second)))
     = [Callback this 0%nat; Callback this 1%nat]
  /\ subscribers <$> heap first_unmounted !! this = Some []
  /\ notified (world_of (push this (Node "x") first_unmounted)) = []
  /\ components_of this (world_of (push this (Node "x") first_unmounted))
     = [(-1, "x")]
  /\ cells (world_of (push this (Node "x") first_unmounted)) !! fst (fst second)
     = Some [].
Proof. repeat split. Qed.

(** C2 fails for the sentinel: after two pushes of plain content both items
    bear the tag -1, and [dismiss(-1)] removes the two of them, not one. *)
Lemma dismiss_sentinel_removes_all :
  let w := run this [Push (Node "A"); Push (Node "B")] start in
  let w' := world_of (dismiss this (Some (-1)) w) in
  components_of this w = [(-1, "A"); (-1, "B")]
  /\ components_of this w' = []
  /\ ~ removes_one (-1) (components_of this w) (components_of this w').
Proof.
  repeat split. intros (l1 & node & l2 & Hbefore & Hafter).
  change (components_of this
            (world_of (dismiss this (Some (-1))
               (run this [Push (Node "A"); Push (Node "B")] start))))
    with (@nil (item string)) in Hafter.
  symmetry in Hafter. apply app_eq_nil in Hafter as [-> ->].
  discriminate Hbefore.
Qed.

(** C4: the scenario of the specification.  From a new registry,
    [push("A")], [push(id => "B" + id)], [dismiss(0)] and [dismiss()] leave
    the lists [(-1,"A")], then [(-1,"A"), (0,"B0")], then [(-1,"A")], then
    the empty list. *)
Theorem scenario_lists :
  components_of this start = []
  /\ components_of this (run this [Push (Node "A")] start) = [(-1, "A")]
  /\ components_of this (run this [Push (Node "A"); Push (Function B)] start)
     = [(-1, "A"); (0, "B0")]
  /\ components_of this
       (run this [Push (Node "A"); Push (Function B); Dismiss (Some 0)] start)
     = [(-1, "A")]
  /\ components_of this
       (run this [Push (Node "A"); Push (Function B); Dismiss (Some 0);
                  Dismiss None] start)
     = [].
Proof. repeat split; vm_compute; reflexivity. Qed.

(** ** The general claims at work *)

(** [dismiss(0)] on the list [(-1,"A"), (0,"B0")] takes out the second item. *)
Lemma dismiss_id_removes_that_item_witness :
  heap pushed !! this = Some pushed_overlay
  /\ exists w',
       dismiss this (Some 0) pushed = Returned w'
       /\ components_of this w' = [(-1, "A")] ++ []
       /\ removes_one 0 (components pushed_overlay) (components_of this w').
Proof.
  split; [vm_compute; reflexivity|].
  apply (dismiss_id_removes_that_item this 0 pushed pushed_overlay
           [(-1, "A")] [] "B0").
  - vm_compute; reflexivity.
  - reflexivity.
  - apply (bool_decide_unpack _). vm_compute. exact I.
  - apply (bool_decide_unpack _). vm_compute. exact I.
Defined.

(** A third overlay, constructed next to the two: its four content functions,
    the failing one among them, are called with 0, 1, 2 and 3. *)
Lemma generated_ids_never_repeat_witness :
  World_ok two_overlays
  /\ Z.of_nat (factory_calls session) <= JS.MAX_EXACT + 1
  /\ issued_to 2%nat (run 2%nat session (snd (new_Overlay two_overlays)))
     = [0; 1; 2; 3].
Proof.
  assert (Hok : World_ok two_overlays)
    by exact (reachable_ok _ two_overlays_reachable).
  assert (Hle : Z.of_nat (factory_calls session) <= JS.MAX_EXACT + 1)
    by (vm_compute; discriminate).
  split; [exact Hok|]. split; [exact Hle|].
  exact (proj1 (generated_ids_never_repeat two_overlays session Hok Hle)).
Defined.


(** [dismiss()] on a list of two items. *)
Lemma dismiss_removes_last_witness :
  heap pushed !! this = Some pushed_overlay
  /\ exists w',
       dismiss this None pushed = Returned w'
       /\ (forall l it,
             components pushed_overlay = l ++ [it] -> components_of this w' = l)
       /\ (components pushed_overlay = [] -> components_of this w' = []).
Proof.
  split; [vm_compute; reflexivity|].
  apply (dismiss_removes_last this pushed pushed_overlay).
  vm_compute; reflexivity.
Defined.

(** A push with a content function on the overlay that has one subscriber. *)
Lemma mutation_notifies_every_subscriber_witness :
  World_ok pushed
  /\ returns pushed_overlay (Push (Function B))
  /\ exists w' o',
       call this (Push (Function B)) pushed = Returned w'
       /\ heap w' !! this = Some o'
       /\ subscribers o' = [Callback this 0%nat]
       /\ (iid o' = 1
           /\ exists node,
                B 1 = Some node
                /\ components o' = [(-1, "A"); (0, "B0")] ++ [(1, node)])
       /\ notified w' = notified pushed ++ [Callback this 0%nat]
       /\ NoDup [Callback this 0%nat]
       /\ forall fn, fn ∈ [Callback this 0%nat] ->
            cells w' !! cb_cell fn = Some (components o').
Proof.
  assert (Hok : World_ok pushed) by exact (reachable_ok _ pushed_reachable).
  assert (Hret : returns pushed_overlay (Push (Function B)))
    by (eexists; reflexivity).
  split; [exact Hok|]. split; [exact Hret|].
  apply (mutation_notifies_every_subscriber this (Push (Function B)) pushed
           pushed_overlay Hok); [vm_compute; reflexivity|exact Hret].
Defined.

(** The content function [B] returns, and so does the push. *)
Lemma mutations_do_not_throw_witness :
  heap pushed !! this = Some pushed_overlay
  /\ returns pushed_overlay (Push (Function B))
  /\ exists w', call this (Push (Function B)) pushed = Returned w'.
Proof.
  assert (Hret : returns pushed_overlay (Push (Function B)))
    by (eexists; reflexivity).
  split; [vm_compute; reflexivity|]. split; [exact Hret|].
  refine (proj1 (mutations_do_not_throw this (Push (Function B)) pushed
                   pushed_overlay _ Hret)).
  vm_compute; reflexivity.
Defined.

(** A push on the first overlay, seen from the second. *)
Lemma overlays_do_not_interfere_witness :
  World_ok pushed
  /\ heap pushed !! this = Some pushed_overlay
  /\ heap pushed !! 1%nat = Some other_overlay
  /\ heap (world_of (call this (Push (Function B)) pushed)) !! 1%nat
     = Some other_overlay
  /\ exists fns,
       notified (world_of (call this (Push (Function B)) pushed))
       = notified pushed ++ fns
       /\ forall fn, fn ∈ fns -> fn ∉ subscribers other_overlay.
Proof.
  assert (Hok : World_ok pushed) by exact (reachable_ok _ pushed_reachable).
  split; [exact Hok|]. split; [vm_compute; reflexivity|].
  split; [vm_compute; reflexivity|].
  apply (overlays_do_not_interfere this 1%nat (Push (Function B)) pushed
           pushed_overlay other_overlay Hok);
    [discriminate|vm_compute; reflexivity|vm_compute; reflexivity].
Defined.

(** The failing content function is called with 1; the next one gets 2. *)
Lemma throwing_factory_consumes_id_witness :
  heap pushed !! this = Some pushed_overlay
  /\ iid pushed_overlay + 1 < JS.MAX_EXACT
  /\ exists w',
       push this (Function failing) pushed = Thrown w'
       /\ heap w' !! this = Some (set_iid 1 pushed_overlay)
       /\ cells w' = cells pushed
       /\ notified w' = notified pushed
       /\ issued w' = issued pushed ++ [(this, 1)]
       /\ forall g,
            issued (world_of (push this (Function g) w'))
            = issued pushed ++ [(this, 1); (this, 2)].
Proof.
  split; [vm_compute; reflexivity|]. split; [vm_compute; reflexivity|].
  apply (throwing_factory_consumes_id this failing pushed pushed_overlay);
    [vm_compute; reflexivity|vm_compute; reflexivity|reflexivity].
Defined.

End Concrete.

(** * Further properties of the class *)

Section Further.

Context {ReactNode : Type}.

Implicit Types (w : World ReactNode) (o : Overlay ReactNode).
Implicit Types (m : mutation ReactNode) (ms : list (mutation ReactNode)).

(** ** Helpers *)

Lemma filter_keeps {T} (id : Z) (l : list (Z * T)) (it : Z * T) :
  it ∈ List.filter (fun it => negb (fst it =? id)) l <-> it ∈ l /\ fst it <> id.
Proof.
  rewrite !list_elem_of_In, List.filter_In.
  rewrite negb_true_iff, Z.eqb_neq. tauto.
Qed.

Lemma run_cons (this : ref) m ms w :
  run this (m :: ms) w = run this ms (world_of (call this m w)).
Proof. reflexivity. Qed.


(** Across a sequence of mutations the overlay stays allocated and keeps
    its subscriber array; the cells are as many as before. *)
Lemma run_subscribers (this : ref) ms w o :
  heap w !! this = Some o ->
  exists o',
    heap (run this ms w) !! this = Some o'
    /\ subscribers o' = subscribers o
    /\ length (cells (run this ms w)) = length (cells w).
Proof.
  revert w o. induction ms as [|m ms IH]; intros w o H; [by exists o|].
  assert (Hlt := lookup_lt_Some _ _ _ H).
  destruct (call_allocated this m w o H) as (o1 & Hheap & Hfns & Hlen & _).
  assert (H1 : heap (world_of (call this m w)) !! this = Some o1).
  { rewrite Hheap. by apply list_lookup_insert_eq. }
  destruct (IH _ _ H1) as (o' & H' & Hfns' & Hlen').
  exists o'. rewrite run_cons. split; [done|]. split; congruence.
Qed.

(** A mutation writes the cells of the subscribers of its overlay only. *)
Lemma call_cells_other (this : ref) m w o (c : cell) :
  heap w !! this = Some o ->
  c ∉ cb_cell <$> subscribers o ->
  cells (world_of (call this m w)) !! c = cells w !! c.
Proof.
  intros H Hc. destruct m as [[node|f]|[id|]|]; simpl;
    unfold pushLast, pushWithId, dismissById, dismissLast, dismissAll;
    rewrite H; simpl.
  2: destruct (f (JS.incr (iid o))) as [node|]; simpl.
  all: try done; by rewrite forEach_cells_other.
Qed.

Lemma evolves_iid_le o o' : evolves o o' -> iid o <= iid o'.
Proof.
  assert (iid o <= JS.incr (iid o)).
  { unfold JS.incr. destruct (Z.ltb_spec (iid o) JS.MAX_EXACT); lia. }
  intros [Hi _|node Hi _|Hi _|node Hi _]; rewrite Hi; lia.
Qed.

(** The counter of an overlay is never below the [-1] it starts at. *)
Lemma reachable_iid_lower w :
  reachable w -> Forall (fun o => -1 <= iid o) (heap w).
Proof.
  induction 1 as [|w _ IH|w this c s w' _ IH Hm|w this s _ IH|w this m _ IH].
  - constructor.
  - simpl. apply Forall_app. split; [done|]. by apply Forall_singleton.
  - unfold Container_mount, Container_useState, Container_effect in Hm.
    destruct (heap w !! this) as [o|] eqn:H; [|done]. simpl in Hm.
    rewrite H in Hm. simpl in Hm. injection Hm as <- <- <-. simpl.
    apply Forall_insert; [done|].
    rewrite Forall_lookup in IH. exact (IH _ _ H).
  - unfold Container_cleanup.
    destruct (heap w !! this) as [o|] eqn:H; [|done]. simpl.
    apply Forall_insert; [done|].
    rewrite Forall_lookup in IH. exact (IH _ _ H).
  - destruct (heap w !! this) as [o|] eqn:H;
      [|by rewrite call_unallocated].
    destruct (call_evolves this m w o H) as (o' & -> & Hev).
    apply Forall_insert; [done|].
    rewrite Forall_lookup in IH. apply evolves_iid_le in Hev.
    specialize (IH _ _ H). simpl in IH. lia.
Qed.

(** The id that the next content function will be given is borne by no
    item of the list. *)
Lemma next_id_fresh (this : ref) w o :
  reachable w ->
  heap w !! this = Some o ->
  iid o < JS.MAX_EXACT ->
  iid o + 1 ∉ (components o).*1.
Proof.
  intros Hreach H Hb Hin.
  pose proof (reachable_iid_lower w Hreach) as Hlow.
  rewrite Forall_lookup in Hlow. specialize (Hlow _ _ H). simpl in Hlow.
  apply reachable_ids_ok in Hreach. unfold Ids_ok in Hreach.
  rewrite Forall_lookup in Hreach. destruct (Hreach _ _ H Hb) as [_ Hall].
  rewrite Forall_forall in Hall.
  assert (iid o + 1 ∈ tags (components o)) as Ht.
  { unfold tags. apply list_elem_of_filter. split; [lia|done]. }
  apply Hall in Ht. lia.
Qed.

(** ** The list across several calls *)


(** X2: [dismissAll()] empties the list but does not reset the counter: a
    content function pushed after it is given the next id, and the list is
    then that one item. *)
Theorem dismissAll_keeps_counter (this : ref) (f : Z -> option ReactNode)
    (node : ReactNode) w o :
  heap w !! this = Some o ->
  iid o < JS.MAX_EXACT ->
  f (iid o + 1) = Some node ->
  heap (run this [DismissAll; Push (Function f)] w) !! this
  = Some (mkOverlay (iid o + 1) [(iid o + 1, node)] (subscribers o)).
Proof.
  intros H Hb Hf. assert (Hlt := lookup_lt_Some _ _ _ H).
  assert (JS.incr (iid o) = iid o + 1) as Hincr.
  { unfold JS.incr. destruct (Z.ltb_spec (iid o) JS.MAX_EXACT); lia. }
  simpl. unfold dismissAll. rewrite H. simpl.
  unfold pushWithId. rewrite forEach_heap. simpl.
  rewrite list_lookup_insert_eq by done. simpl. rewrite Hincr, Hf. simpl.
  rewrite forEach_heap. simpl.
  apply list_lookup_insert_eq. by rewrite !length_insert.
Qed.

(** X3: a push that returns, followed by [dismiss()], gives back the list
    as it was.  After [push(content)] the whole object is as before; after
    [push(contentFactory)] the counter stays incremented. *)
Theorem push_then_dismiss_last (this : ref) (a : pushArg ReactNode) w o :
  heap w !! this = Some o ->
  returns o (Push a) ->
  heap (run this [Push a; Dismiss None] w) !! this
  = Some (set_iid
            match a with Node _ => iid o | Function _ => JS.incr (iid o) end
            o).
Proof.
  intros H Hret. assert (Hlt := lookup_lt_Some _ _ _ H).
  destruct a as [node|f]; simpl in *.
  - unfold pushLast. rewrite H. simpl.
    unfold dismissLast. repeat (rewrite forEach_heap; simpl).
    rewrite list_lookup_insert_eq by done. simpl.
    repeat (rewrite forEach_heap; simpl). rewrite slice_drop_last.
    rewrite list_lookup_insert_eq by (rewrite ?length_insert; done).
    by destruct o.
  - destruct Hret as [node Hf].
    unfold pushWithId. rewrite H. simpl. rewrite Hf. simpl.
    unfold dismissLast. repeat (rewrite forEach_heap; simpl).
    rewrite list_lookup_insert_eq by (rewrite ?length_insert; done).
    simpl. repeat (rewrite forEach_heap; simpl). rewrite slice_drop_last.
    rewrite list_lookup_insert_eq by (rewrite ?length_insert; done).
    done.
Qed.

(** X4: the id that a content function is given removes the item it made and
    nothing else.  In every world that a program gets to, while the counter
    counts, [push(id => ...)] followed by [dismiss(id)] with that same id
    gives back the list as it was; only the counter has moved on. *)
Theorem push_then_dismiss_own_id (this : ref) (f : Z -> option ReactNode)
    (node : ReactNode) w o :
  reachable w ->
  heap w !! this = Some o ->
  iid o < JS.MAX_EXACT ->
  f (iid o + 1) = Some node ->
  issued_to this (world_of (push this (Function f) w))
  = issued_to this w ++ [iid o + 1]
  /\ heap (run this [Push (Function f); Dismiss (Some (iid o + 1))] w) !! this
     = Some (set_iid (iid o + 1) o).
Proof.
  intros Hreach H Hb Hf. assert (Hlt := lookup_lt_Some _ _ _ H).
  assert (JS.incr (iid o) = iid o + 1) as Hincr.
  { unfold JS.incr. destruct (Z.ltb_spec (iid o) JS.MAX_EXACT); lia. }
  pose proof (next_id_fresh this w o Hreach H Hb) as Hfresh.
  split.
  - change (push this (Function f) w) with (call this (Push (Function f)) w).
    destruct (call_counter this (Push (Function f)) w o H) as (_ & _ & _ & ->).
    by rewrite Hincr.
  - simpl. unfold pushWithId. rewrite H. simpl. rewrite Hincr, Hf. simpl.
    unfold dismissById. repeat (rewrite forEach_heap; simpl).
    rewrite list_lookup_insert_eq by (rewrite ?length_insert; done).
    simpl. repeat (rewrite forEach_heap; simpl).
    rewrite list_lookup_insert_eq by (rewrite ?length_insert; done).
    rewrite filter_split, filter_absent by done. simpl.
    rewrite Z.eqb_refl. simpl. by rewrite app_nil_r.
Qed.

(** X5: [dismiss(id)] keeps an item exactly when its tag is not [id]: the
    list after the call is the list before it without the items bearing
    [id] (all items pushed without an id when [id] is [-1]); every other
    item stays, as often as it occurs, and the items that stay are in the
    order they were in. *)
Theorem dismiss_id_keeps_the_others (this : ref) (id : Z) w o :
  heap w !! this = Some o ->
  exists w',
    dismiss this (Some id) w = Returned w'
    /\ components_of this w'
       = filter (fun it => fst it <> id) (components o)
    /\ components_of this w' `sublist_of` components o
    /\ forall it, it ∈ components_of this w' <-> it ∈ components o /\ fst it <> id.
Proof.
  intros H. assert (Hlt := lookup_lt_Some _ _ _ H).
  simpl. unfold dismissById, components_of. rewrite H. simpl.
  eexists. split; [reflexivity|].
  rewrite forEach_heap. simpl. rewrite list_lookup_insert_eq by done. simpl.
  split; [apply filter_tag_ne|].
  split; [apply filter_sublist|]. intros it. apply filter_keeps.
Qed.

(** ** Subscriptions *)

Lemma heap_insert_lookup (h : list (Overlay ReactNode)) (this r : ref) o' x :
  <[this := o']> h !! r = Some x ->
  (r = this /\ x = o') \/ (r <> this /\ h !! r = Some x).
Proof.
  rewrite list_lookup_insert_Some. intros [(-> & -> & _)|[Hne Hr]]; auto.
Qed.

(** X6: in every world that a program gets to, the subscriber array of an
    overlay holds no callback twice, each of its callbacks is a closure over
    that overlay and over the cell of a container that was mounted, and no
    callback is in the array of a second overlay. *)
Theorem subscriber_arrays_wellformed (r : ref) w o :
  reachable w ->
  heap w !! r = Some o ->
  NoDup (subscribers o)
  /\ forall fn, fn ∈ subscribers o ->
       cb_this fn = r
       /\ is_Some (cells w !! cb_cell fn)
       /\ forall r' o', heap w !! r' = Some o' -> fn ∈ subscribers o' -> r' = r.
Proof.
  intros Hreach H. destruct (reachable_ok w Hreach) as [Hsub _].
  destruct (Hsub _ _ H) as [Hall Hnd]. split; [done|].
  rewrite Forall_forall in Hall. intros fn Hin.
  destruct (Hall _ Hin) as [Hr Hc]. split; [done|]. split.
  - by apply lookup_lt_is_Some.
  - intros r' o' H' Hin'. destruct (Hsub _ _ H') as [Hall' _].
    rewrite Forall_forall in Hall'. destruct (Hall' _ Hin') as [Hr' _].
    congruence.
Qed.

(** The first [p] callbacks of the array of [this] across one such step. *)
Lemma later_step_keeps_prefix (this : ref) (p : nat) (l : list callback)
    w w' :
  later_step this p w w' ->
  (exists o, heap w !! this = Some o
             /\ (p <= length (subscribers o))%nat
             /\ take p (subscribers o) = l) ->
  exists o', heap w' !! this = Some o'
             /\ (p <= length (subscribers o'))%nat
             /\ take p (subscribers o') = l.
Proof.
  intros Hstep (o & H & Hp & Hl). assert (Hlt := lookup_lt_Some _ _ _ H).
  destruct Hstep as [|r c s w' Hm|r s Hs|r m].
  - exists o. simpl. by rewrite lookup_app_l.
  - destruct (decide (r = this)) as [->|Hne].
    + destruct (Container_mount_appends this w o H) as (w'' & Hm' & H1).
      rewrite Hm in Hm'. injection Hm' as -> -> ->.
      eexists. split; [exact H1|]. simpl. rewrite length_app.
      split; [lia|]. by rewrite take_app_le.
    + exists o. split; [|done].
      unfold Container_mount, Container_useState, Container_effect in Hm.
      destruct (heap w !! r) as [o0|] eqn:H0; [|done]. simpl in Hm.
      rewrite H0 in Hm. simpl in Hm. injection Hm as <- <- <-. simpl.
      by rewrite list_lookup_insert_ne.
  - unfold Container_cleanup. destruct (decide (r = this)) as [->|Hne].
    + destruct Hs as [Hs|Hs]; [done|]. rewrite H. simpl.
      eexists. split; [by apply list_lookup_insert_eq|]. simpl.
      unfold JS.splice, JS.relative.
      destruct (Z.ltb_spec (s - 1) 0) as [?|_]; [lia|].
      rewrite length_take, take_take. split; [lia|].
      rewrite <- Hl. f_equal. lia.
    + exists o. split; [|done].
      destruct (heap w !! r) as [o0|] eqn:H0; [|done]. simpl.
      by rewrite list_lookup_insert_ne.
  - destruct (decide (r = this)) as [->|Hne].
    + destruct (call_allocated this m w o H) as (o1 & Hheap & Hfns & _).
      exists o1. rewrite Hheap, Hfns.
      split; [by apply list_lookup_insert_eq|done].
    + exists o. by rewrite call_other.
Qed.

Lemma later_steps_keep_prefix (this : ref) (p : nat) (l : list callback)
    w w' :
  later_steps this p w w' ->
  (exists o, heap w !! this = Some o
             /\ (p <= length (subscribers o))%nat
             /\ take p (subscribers o) = l) ->
  exists o', heap w' !! this = Some o'
             /\ (p <= length (subscribers o'))%nat
             /\ take p (subscribers o') = l.
Proof.
  induction 1 as [w|w1 w2 w3 Hstep _ IH]; [done|].
  intros Hw1. apply IH. by eapply later_step_keeps_prefix.
Qed.

(** X7: the clean-up of a container leaves the array as it was before the
    container was mounted, provided that between its mount and its clean-up
    no clean-up has cut the array of its overlay before the position of its
    callback.  Anything else may have happened in between: mutations of any
    overlay, new overlays, containers mounted on any overlay, clean-ups on
    other overlays, and clean-ups on this overlay of subscriptions that are
    not smaller than its own. *)
Theorem mount_then_cleanup (this : ref) w o (c : cell) (s : Z) w1 w2 :
  heap w !! this = Some o ->
  Container_mount this w = Some (c, s, w1) ->
  later_steps this (length (subscribers o)) w1 w2 ->
  exists o',
    heap (Container_cleanup this s w2) !! this = Some o'
    /\ subscribers o' = subscribers o.
Proof.
  intros H Hm Hsteps.
  destruct (Container_mount_appends this w o H) as (w' & Hm' & H1).
  rewrite Hm in Hm'. injection Hm' as -> -> ->.
  destruct (later_steps_keep_prefix this (length (subscribers o))
              (subscribers o) w' w2 Hsteps) as (o2 & H2 & _ & Hl).
  { eexists. split; [exact H1|]. simpl. rewrite length_app.
    split; [lia|]. apply take_app_length. }
  rewrite (Container_cleanup_truncates this w2 o2 _ H2).
  eexists. split; [reflexivity|]. exact Hl.
Qed.

(** X8: the effect registers the callback and does nothing else: it does not
    read the list again.  A mutation called after the first render of a
    container and before its effect is therefore not shown: the container is
    subscribed, the overlay has the list the mutation made, and the cell
    still holds the list of the first render. *)
Theorem mutation_before_effect_is_missed (this : ref) m w o
    (c : cell) w1 (s : Z) w3 :
  World_ok w ->
  heap w !! this = Some o ->
  Container_useState this w = Some (c, w1) ->
  Container_effect this c (world_of (call this m w1)) = Some (s, w3) ->
  exists o3,
    heap w3 !! this = Some o3
    /\ Callback this c ∈ subscribers o3
    /\ components o3 = components_of this (world_of (call this m w))
    /\ cells w3 !! c = Some (components o).
Proof.
  intros [Hsub _] H Hus Hef. assert (Hlt := lookup_lt_Some _ _ _ H).
  destruct (Hsub _ _ H) as [Hall _]. rewrite Forall_forall in Hall.
  unfold Container_useState in Hus. rewrite H in Hus.
  injection Hus as <- <-.
  set (w1 := mkWorld (heap w) (cells w ++ [components o]) (notified w)
                     (issued w)) in *.
  assert (H1 : heap w1 !! this = Some o) by done.
  assert (Hc : length (cells w) ∉ cb_cell <$> subscribers o).
  { intros (fn & Heq & Hin)%list_elem_of_fmap.
    apply Hall in Hin as [_ Hin]. lia. }
  pose proof (call_cells_other this m w1 o _ H1 Hc) as Hcells.
  destruct (call_evolves this m w1 o H1) as (o' & Hheap1 & _).
  destruct (call_evolves this m w o H) as (o'' & Hheap & _).
  assert (Hsame : components_of this (world_of (call this m w1))
                  = components_of this (world_of (call this m w))).
  { unfold w1. clear. destruct m as [[node|f]|[id|]|]; simpl;
      unfold pushLast, pushWithId, dismissById, dismissLast, dismissAll,
        components_of; simpl;
      destruct (heap w !! this) as [o0|]; simpl; try done.
    2: destruct (f (JS.incr (iid o0))) as [node|]; simpl.
    all: by rewrite ?forEach_heap. }
  unfold Container_effect in Hef.
  assert (H2 : heap (world_of (call this m w1)) !! this = Some o').
  { rewrite Hheap1. by apply list_lookup_insert_eq. }
  rewrite H2 in Hef. simpl in Hef. injection Hef as <- <-.
  eexists. split.
  { simpl. apply list_lookup_insert_eq. by eapply lookup_lt_Some. }
  simpl. split.
  { apply elem_of_app. right. by apply list_elem_of_singleton. }
  split.
  - rewrite <- Hsame. unfold components_of. by rewrite H2.
  - rewrite Hcells. unfold w1. simpl.
    rewrite lookup_app_r by done. by rewrite Nat.sub_diag.
Qed.

(** X9: the mutations of an overlay write to the cells of the callbacks in
    its subscriber array and to no other: a container that is not
    subscribed, or not any more, keeps the list it holds, whatever
    mutations are called. *)
Theorem unsubscribed_cell_keeps_its_list (this : ref) ms w o (c : cell) :
  heap w !! this = Some o ->
  c ∉ cb_cell <$> subscribers o ->
  cells (run this ms w) !! c = cells w !! c.
Proof.
  revert w o. induction ms as [|m ms IH]; intros w o H Hc; [done|].
  assert (Hlt := lookup_lt_Some _ _ _ H).
  destruct (call_allocated this m w o H) as (o1 & Hheap & Hfns & _).
  assert (H1 : heap (world_of (call this m w)) !! this = Some o1).
  { rewrite Hheap. by apply list_lookup_insert_eq. }
  rewrite run_cons, (IH _ o1 H1) by by rewrite Hfns.
  by eapply call_cells_other.
Qed.

(** A callback stays at the position of the array at which it was
    registered for as long as it is in the array, and once it is out it does
    not come back: nothing is ever inserted before it, and the callbacks of
    later containers are closures over later cells. *)
Lemma step_keeps_position (this : ref) (fn : callback) (p : nat) w w' :
  step w w' ->
  (this < length (heap w))%nat ->
  (cb_cell fn < length (cells w))%nat ->
  (forall o i, heap w !! this = Some o -> subscribers o !! i = Some fn ->
               i = p) ->
  (this < length (heap w'))%nat
  /\ (cb_cell fn < length (cells w'))%nat
  /\ forall o i, heap w' !! this = Some o -> subscribers o !! i = Some fn ->
                 i = p.
Proof.
  intros Hstep Hlt Hc Hpos.
  destruct Hstep as [|this0 c s w' Hm|this0 s|this0 m].
  - simpl. rewrite length_app. split; [lia|]. split; [done|].
    intros o i Ho. rewrite lookup_app_l in Ho by done. by apply Hpos.
  - unfold Container_mount, Container_useState, Container_effect in Hm.
    destruct (heap w !! this0) as [o0|] eqn:H0; [|done]. simpl in Hm.
    rewrite H0 in Hm. simpl in Hm. injection Hm as <- <- <-. simpl.
    rewrite length_insert, length_app. split; [done|]. split; [lia|].
    intros o i [[-> ->]|[Hne Ho]]%heap_insert_lookup; [|by eapply Hpos].
    simpl. intros [Hi|[_ Hi]]%lookup_app_Some; [by eapply Hpos|].
    apply list_lookup_singleton_Some in Hi as [_ <-]. simpl in Hc. lia.
  - unfold Container_cleanup.
    destruct (heap w !! this0) as [o0|] eqn:H0; [|done]. simpl.
    rewrite length_insert. do 2 (split; [done|]).
    intros o i [[-> ->]|[Hne Ho]]%heap_insert_lookup; [|by eapply Hpos].
    simpl. unfold JS.splice. intros [Hi _]%lookup_take_Some.
    by eapply Hpos.
  - rewrite call_heap_length.
    destruct (heap w !! this0) as [o0|] eqn:H0;
      [|by rewrite call_unallocated].
    destruct (call_allocated this0 m w o0 H0) as (o' & -> & Hfns & -> & _).
    do 2 (split; [done|]).
    intros o i [[-> ->]|[Hne Ho]]%heap_insert_lookup; [|by eapply Hpos].
    rewrite Hfns. by eapply Hpos.
Qed.

Lemma steps_keep_position (this : ref) (fn : callback) (p : nat) w w' :
  steps w w' ->
  (this < length (heap w))%nat ->
  (cb_cell fn < length (cells w))%nat ->
  (forall o i, heap w !! this = Some o -> subscribers o !! i = Some fn ->
               i = p) ->
  (this < length (heap w'))%nat
  /\ forall o i, heap w' !! this = Some o -> subscribers o !! i = Some fn ->
                 i = p.
Proof.
  induction 1 as [w|w1 w2 w3 Hstep _ IH]; intros Hlt Hc Hpos; [done|].
  destruct (step_keeps_position this fn p w1 w2 Hstep Hlt Hc Hpos)
    as (Hlt2 & Hc2 & Hpos2).
  by apply IH.
Qed.

(** X10: the clean-up of an effect always takes the callback of its own
    container out of the array, whatever the program did between the mount
    and the clean-up: other containers mounted or unmounted, mutations,
    other overlays. *)
Theorem own_cleanup_removes_own_callback (this : ref) w o
    (c : cell) (s : Z) w1 w2 :
  World_ok w ->
  heap w !! this = Some o ->
  Container_mount this w = Some (c, s, w1) ->
  steps w1 w2 ->
  exists o2,
    heap (Container_cleanup this s w2) !! this = Some o2
    /\ Callback this c ∉ subscribers o2.
Proof.
  intros [Hsub _] H Hm Hsteps. assert (Hlt := lookup_lt_Some _ _ _ H).
  destruct (Hsub _ _ H) as [Hall _]. rewrite Forall_forall in Hall.
  destruct (Container_mount_appends this w o H) as (w' & Hm' & H1).
  rewrite Hm in Hm'. injection Hm' as -> -> ->.
  set (fn := Callback this (length (cells w))).
  set (p := length (subscribers o)).
  destruct (steps_keep_position this fn p w' w2 Hsteps) as [Hlt2 Hpos].
  { by eapply lookup_lt_Some. }
  { unfold Container_mount, Container_useState, Container_effect in Hm.
    rewrite H in Hm. simpl in Hm. rewrite H in Hm. simpl in Hm.
    injection Hm as <-. simpl. rewrite length_app. simpl. lia. }
  { intros o2 i Ho2. rewrite H1 in Ho2. injection Ho2 as <-. simpl.
    intros [Hi|[Hle Hi]]%lookup_app_Some.
    - apply list_elem_of_lookup_2, Hall in Hi as [_ Hi]. simpl in Hi. lia.
    - apply list_lookup_singleton_Some in Hi as [Hi _]. unfold p. lia. }
  destruct (lookup_lt_is_Some_2 _ _ Hlt2) as [o2 H2].
  rewrite (Container_cleanup_truncates this w2 o2 p H2).
  eexists. split; [reflexivity|]. simpl.
  intros (i & Hi)%list_elem_of_lookup_1.
  apply lookup_take_Some in Hi as [Hi Hip].
  specialize (Hpos _ _ H2 Hi). lia.
Qed.

(** ** What the containers hold *)

(** The callbacks that are in an array after a mount: those that were in it
    before, and the one of the new container. *)
Lemma mount_subscribers (this : ref) w (c : cell) (s : Z) w' (r : ref) o' fn :
  Container_mount this w = Some (c, s, w') ->
  heap w' !! r = Some o' ->
  fn ∈ subscribers o' ->
  (exists o, heap w !! r = Some o /\ components o' = components o
             /\ fn ∈ subscribers o)
  \/ (r = this /\ fn = Callback this (length (cells w))
      /\ exists o, heap w !! this = Some o /\ components o' = components o).
Proof.
  unfold Container_mount, Container_useState, Container_effect.
  destruct (heap w !! this) as [o|] eqn:H; [|done]. simpl.
  rewrite H. simpl. intros [= <- <- <-]. simpl.
  intros [[-> ->]|[Hne Hr]]%heap_insert_lookup; [|by eauto].
  simpl. intros [Hin|Hin%list_elem_of_singleton]%elem_of_app; [by eauto|].
  right. eauto.
Qed.

(** After any other step the callbacks of an array were in it before. *)
Lemma cleanup_subscribers (this : ref) (s : Z) w (r : ref) o' fn :
  heap (Container_cleanup this s w) !! r = Some o' ->
  fn ∈ subscribers o' ->
  exists o, heap w !! r = Some o /\ components o' = components o
            /\ fn ∈ subscribers o.
Proof.
  unfold Container_cleanup.
  destruct (heap w !! this) as [o|] eqn:H; [|by eauto]. simpl.
  intros [[-> ->]|[Hne Hr]]%heap_insert_lookup; [|by eauto].
  simpl. unfold JS.splice. intros Hin. exists o. do 2 (split; [done|]).
  eapply elem_of_sublist; [exact Hin|apply sublist_take].
Qed.

Lemma call_subscribers (this : ref) m w (r : ref) o' fn :
  heap (world_of (call this m w)) !! r = Some o' ->
  fn ∈ subscribers o' ->
  exists o, heap w !! r = Some o /\ fn ∈ subscribers o.
Proof.
  destruct (heap w !! this) as [o|] eqn:H;
    [|rewrite call_unallocated by done; by eauto].
  destruct (call_allocated this m w o H) as (o1 & -> & Hfns & _).
  intros [[-> ->]|[Hne Hr]]%heap_insert_lookup; [|by eauto].
  rewrite Hfns. eauto.
Qed.

Lemma reachable_owned w : reachable w -> Owned w.
Proof.
  induction 1 as [|w _ IH|w this c s w' Hreach IH Hm|w this s _ IH
                  |w this m _ IH];
    intros r1 r2 o1 o2 fn1 fn2 H1 H2 Hin1 Hin2 Hc.
  - simpl in H1. by rewrite lookup_nil in H1.
  - simpl in H1, H2.
    apply lookup_app_Some in H1 as [H1|[_ H1]];
      [|apply list_lookup_singleton_Some in H1 as [_ <-];
        by apply elem_of_nil in Hin1].
    apply lookup_app_Some in H2 as [H2|[_ H2]];
      [|apply list_lookup_singleton_Some in H2 as [_ <-];
        by apply elem_of_nil in Hin2].
    by eapply IH.
  - destruct (reachable_ok w Hreach) as [Hsub _].
    assert (Hold : forall r o fn, heap w !! r = Some o -> fn ∈ subscribers o ->
                     (cb_cell fn < length (cells w))%nat).
    { intros r o fn Hr Hin. destruct (Hsub _ _ Hr) as [Hall _].
      rewrite Forall_forall in Hall. by apply Hall. }
    destruct (mount_subscribers this w c s w' r1 o1 fn1 Hm H1 Hin1)
      as [(o1' & H1' & _ & Hin1')|(-> & -> & _)];
    destruct (mount_subscribers this w c s w' r2 o2 fn2 Hm H2 Hin2)
      as [(o2' & H2' & _ & Hin2')|(-> & -> & _)].
    + by eapply IH.
    + apply (Hold _ _ _ H1') in Hin1'. simpl in Hc. lia.
    + apply (Hold _ _ _ H2') in Hin2'. simpl in Hc. lia.
    + done.
  - destruct (cleanup_subscribers this s w r1 o1 fn1 H1 Hin1)
      as (o1' & H1' & _ & Hin1').
    destruct (cleanup_subscribers this s w r2 o2 fn2 H2 Hin2)
      as (o2' & H2' & _ & Hin2').
    by eapply IH.
  - destruct (call_subscribers this m w r1 o1 fn1 H1 Hin1)
      as (o1' & H1' & Hin1').
    destruct (call_subscribers this m w r2 o2 fn2 H2 Hin2)
      as (o2' & H2' & Hin2').
    by eapply IH.
Qed.

(** The subscribers of the overlay that a mutation is called on hold its
    list after the call as they did before: the new list when the call
    returned, the list as it was when it threw. *)
Lemma call_synced_this (this : ref) m w o o' fn :
  subscribers_ok w this o ->
  heap w !! this = Some o ->
  (forall fn, fn ∈ subscribers o ->
     cells w !! cb_cell fn = Some (components o)) ->
  heap (world_of (call this m w)) !! this = Some o' ->
  fn ∈ subscribers o ->
  cells (world_of (call this m w)) !! cb_cell fn = Some (components o').
Proof.
  intros [Hall _] H Hsync H' Hin. assert (Hlt := lookup_lt_Some _ _ _ H).
  assert (Hcases : returns o m
                   \/ exists f, m = Push (Function f)
                                /\ f (JS.incr (iid o)) = None).
  { destruct m as [[node|f]|id|]; simpl; auto.
    destruct (f (JS.incr (iid o))) eqn:Hf; [left; by eexists|right; eauto]. }
  destruct Hcases as [Hret|(f & -> & Hf)].
  - destruct (call_returns this m w o H Hret)
      as (o1 & w1 & Hcall & Hfns & Hlen & Hcells & _).
    rewrite Hcall in H' |- *. simpl in *.
    destruct (publish this o1 w1) as (Hheap & _ & Hread).
    { by rewrite Hlen. }
    { by rewrite Hfns, Hcells. }
    rewrite Hheap in H'. injection H' as <-.
    apply Hread. by rewrite Hfns.
  - simpl in *. unfold pushWithId in *. rewrite H in H' |- *. simpl in *.
    rewrite Hf in H' |- *. simpl in *.
    rewrite list_lookup_insert_eq in H' by done. injection H' as <-.
    simpl. by apply Hsync.
Qed.

Lemma reachable_synced w : reachable w -> Synced w.
Proof.
  induction 1 as [|w _ IH|w this c s w' Hreach IH Hm|w this s _ IH
                  |w this m Hreach IH];
    intros r o' fn Hr Hin.
  - simpl in Hr. by rewrite lookup_nil in Hr.
  - simpl in *.
    apply lookup_app_Some in Hr as [Hr|[_ Hr]]; [by eapply IH|].
    apply list_lookup_singleton_Some in Hr as [_ <-].
    by apply elem_of_nil in Hin.
  - destruct (reachable_ok w Hreach) as [Hsub _].
    assert (Hcells : cells w' = cells w
                     ++ [default [] (components <$> heap w !! this)]).
    { unfold Container_mount, Container_useState, Container_effect in Hm.
      destruct (heap w !! this) as [o|] eqn:H; [|done]. simpl in Hm.
      rewrite H in Hm. simpl in Hm. by injection Hm as <- <- <-. }
    destruct (mount_subscribers this w c s w' r o' fn Hm Hr Hin)
      as [(o & Ho & -> & Hin')|(-> & -> & o & Ho & ->)]; rewrite Hcells.
    + destruct (Hsub _ _ Ho) as [Hall _]. rewrite Forall_forall in Hall.
      rewrite lookup_app_l by by apply Hall. by eapply IH.
    + simpl. rewrite lookup_app_r by done. rewrite Nat.sub_diag, Ho. done.
  - destruct (cleanup_subscribers this s w r o' fn Hr Hin)
      as (o & Ho & -> & Hin').
    replace (cells (Container_cleanup this s w)) with (cells w)
      by (unfold Container_cleanup; by destruct (heap w !! this)).
    by eapply IH.
  - destruct (heap w !! this) as [o|] eqn:H;
      [|rewrite call_unallocated in Hr |- * by done; by eapply IH].
    destruct (reachable_ok w Hreach) as [Hsub _].
    destruct (call_subscribers this m w r o' fn Hr Hin) as (o0 & Ho0 & Hin0).
    destruct (decide (r = this)) as [->|Hne].
    + rewrite H in Ho0. injection Ho0 as <-.
      apply (call_synced_this this m w o o' fn);
        [by apply Hsub|exact H| |exact Hr|exact Hin0].
      intros fn' Hin'. by eapply IH.
    + rewrite call_other in Hr by done.
      rewrite Hr in Ho0. injection Ho0 as <-.
      rewrite (call_cells_other this m w o _ H); [by eapply IH|].
      intros (fn' & Heq & Hin')%list_elem_of_fmap.
      apply Hne. symmetry.
      eapply (reachable_owned w Hreach this r o o' fn' fn); eauto.
Qed.

(** X11: in every world that a program gets to by mounting containers in
    one step, a container whose callback is in the array of an overlay holds
    the current list of that overlay, and so renders it, with whatever
    composition functions it is given. *)
Theorem subscribed_containers_show_the_list
    (this_component props_component : option (composer ReactNode))
    (r : ref) w o fn :
  reachable w ->
  heap w !! r = Some o ->
  fn ∈ subscribers o ->
  cells w !! cb_cell fn = Some (components o)
  /\ Container_view this_component props_component w (cb_cell fn)
     = Some (Container_render this_component props_component (components o)).
Proof.
  intros Hreach H Hin.
  pose proof (reachable_synced w Hreach r o fn H Hin) as Hcell.
  split; [done|]. unfold Container_view. by rewrite Hcell.
Qed.

(** ** Rendering *)

(** X12: without a composition function the container renders one child
    per item, in the order of the list: the child at position [i] has key
    [i] and is the content of the item at position [i]; the tags are not
    rendered. *)
Theorem default_rendering_is_keyed_by_position
    (state : list (item ReactNode)) :
  exists children,
    Container_render None None state = Keyed children
    /\ length children = length state
    /\ forall (i key : nat) (node : ReactNode),
         children !! i = Some (key, node)
         <-> key = i /\ exists id, state !! i = Some (id, node).
Proof.
  eexists. split; [reflexivity|]. split; [apply length_imap|].
  intros i key node. rewrite list_lookup_imap.
  unfold item in *.
  destruct (state !! i) as [[id n]|]; simpl.
  - split.
    + intros [= <- <-]. eauto.
    + intros [-> (id' & [= _ ->])]. done.
  - split; [done|]. by intros [_ (id' & ?)].
Qed.

(** X13: what a container renders depends on the contents of its list only:
    two lists with the same contents in the same order render alike,
    whatever the tags of their items, for each of the three ways of
    composing. *)
Theorem rendering_ignores_tags
    (this_component props_component : option (composer ReactNode))
    (state1 state2 : list (item ReactNode)) :
  state1.*2 = state2.*2 ->
  Container_render this_component props_component state1
  = Container_render this_component props_component state2.
Proof.
  intros Heq. unfold Container_render.
  change (map snd state1) with (state1.*2).
  change (map snd state2) with (state2.*2). rewrite Heq.
  destruct props_component, this_component; try done.
  f_equal.
  assert (Himap : forall l : list (item ReactNode),
            imap (fun index it => (index, snd it)) l
            = imap (fun index node => (index, node)) (l.*2)).
  { intros l. by rewrite imap_fmap. }
  by rewrite !Himap, Heq.
Qed.

End Further.

(** * The further properties on concrete registries *)

Section FurtherConcrete.

Import Scenario.


(** The counter is at 0: after [dismissAll()] the next id is 1. *)
Lemma dismissAll_keeps_counter_witness :
  heap pushed !! this = Some pushed_overlay
  /\ iid pushed_overlay < JS.MAX_EXACT
  /\ heap (run this [DismissAll; Push (Function B)] pushed) !! this
     = Some (mkOverlay 1 [(1, "B1")] [Callback this 0%nat]).
Proof.
  split; [vm_compute; reflexivity|]. split; [vm_compute; reflexivity|].
  apply (dismissAll_keeps_counter this B "B1" pushed pushed_overlay);
    vm_compute; reflexivity.
Defined.

(** [push("C")] and [dismiss()]. *)
Lemma push_then_dismiss_last_witness :
  heap pushed !! this = Some pushed_overlay
  /\ returns pushed_overlay (Push (Node "C"))
  /\ heap (run this [Push (Node "C"); Dismiss None] pushed) !! this
     = Some (set_iid 0 pushed_overlay).
Proof.
  split; [vm_compute; reflexivity|]. split; [exact I|].
  apply (push_then_dismiss_last this (Node "C") pushed pushed_overlay);
    [vm_compute; reflexivity|exact I].
Defined.

(** The content function is given 1, and [dismiss(1)] takes its item out. *)
Lemma push_then_dismiss_own_id_witness :
  reachable pushed
  /\ heap pushed !! this = Some pushed_overlay
  /\ iid pushed_overlay < JS.MAX_EXACT
  /\ issued_to this (world_of (push this (Function B) pushed))
     = issued_to this pushed ++ [1]
  /\ heap (run this [Push (Function B); Dismiss (Some 1)] pushed) !! this
     = Some (set_iid 1 pushed_overlay).
Proof.
  split; [exact pushed_reachable|].
  split; [vm_compute; reflexivity|]. split; [vm_compute; reflexivity|].
  apply (push_then_dismiss_own_id this B "B1" pushed pushed_overlay
           pushed_reachable); vm_compute; reflexivity.
Defined.

(** [dismiss(-1)] on the list [(-1,"A"), (0,"B0")]. *)
Lemma dismiss_id_keeps_the_others_witness :
  heap pushed !! this = Some pushed_overlay
  /\ exists w',
       dismiss this (Some (-1)) pushed = Returned w'
       /\ components_of this w'
          = filter (fun it => fst it <> -1) (components pushed_overlay)
       /\ components_of this w' `sublist_of` components pushed_overlay
       /\ forall it, it ∈ components_of this w'
                     <-> it ∈ components pushed_overlay /\ fst it <> -1.
Proof.
  split; [vm_compute; reflexivity|].
  apply (dismiss_id_keeps_the_others this (-1) pushed pushed_overlay).
  vm_compute; reflexivity.
Defined.

(** The array of the first of the two overlays. *)
Lemma subscriber_arrays_wellformed_witness :
  reachable pushed
  /\ heap pushed !! this = Some pushed_overlay
  /\ NoDup (subscribers pushed_overlay)
  /\ forall fn, fn ∈ subscribers pushed_overlay ->
       cb_this fn = this
       /\ is_Some (cells pushed !! cb_cell fn)
       /\ forall r' o', heap pushed !! r' = Some o' ->
            fn ∈ subscribers o' -> r' = this.
Proof.
  split; [exact pushed_reachable|]. split; [vm_compute; reflexivity|].
  apply (subscriber_arrays_wellformed this pushed pushed_overlay
           pushed_reachable).
  vm_compute; reflexivity.
Defined.

(** A second container on the first overlay; before its clean-up, a push,
    a third container on the same overlay and the clean-up of the container
    of the other overlay. *)
Lemma mount_then_cleanup_witness :
  heap pushed !! this = Some pushed_overlay
  /\ Container_mount this pushed = Some (2%nat, 2, snd (mounted pushed))
  /\ exists o',
       heap (Container_cleanup this 2
               (Container_cleanup 1%nat 1
                  (snd (mounted
                     (world_of (call this (Push (Node "C"))
                                  (snd (mounted pushed)))))))) !! this
       = Some o'
       /\ subscribers o' = [Callback this 0%nat].
Proof.
  split; [vm_compute; reflexivity|]. split; [vm_compute; reflexivity|].
  apply (mount_then_cleanup this pushed pushed_overlay
           2%nat 2 (snd (mounted pushed)));
    [vm_compute; reflexivity|vm_compute; reflexivity|].
  eapply later_cons; [apply (later_call _ _ _ this (Push (Node "C")))|].
  eapply later_cons;
    [apply (later_mount _ _ _ this 3%nat 3
              (snd (mounted (world_of (call this (Push (Node "C"))
                                         (snd (mounted pushed)))))));
     vm_compute; reflexivity|].
  eapply later_cons;
    [apply (later_cleanup _ _ _ 1%nat 1); left; discriminate|].
  apply later_refl.
Defined.

(** A push between the first render of a container and its effect. *)
Lemma mutation_before_effect_is_missed_witness :
  exists w1 w3,
    World_ok pushed
    /\ heap pushed !! this = Some pushed_overlay
    /\ Container_useState this pushed = Some (2%nat, w1)
    /\ Container_effect this 2%nat (world_of (call this (Push (Node "C")) w1))
       = Some (2, w3)
    /\ exists o3,
         heap w3 !! this = Some o3
         /\ Callback this 2%nat ∈ subscribers o3
         /\ components o3
            = components_of this (world_of (call this (Push (Node "C")) pushed))
         /\ cells w3 !! 2%nat = Some [(-1, "A"); (0, "B0")].
Proof.
  assert (Hok : World_ok pushed) by exact (reachable_ok _ pushed_reachable).
  eexists _, _.
  split; [exact Hok|]. split; [vm_compute; reflexivity|].
  split; [vm_compute; reflexivity|]. split; [vm_compute; reflexivity|].
  eapply (mutation_before_effect_is_missed this (Push (Node "C")) pushed
            pushed_overlay 2%nat); [exact Hok|vm_compute; reflexivity..].
Defined.

(** The cell of the container of the second overlay, across mutations of
    the first. *)
Lemma unsubscribed_cell_keeps_its_list_witness :
  heap pushed !! this = Some pushed_overlay
  /\ (1%nat ∉ cb_cell <$> subscribers pushed_overlay)
  /\ cells (run this session pushed) !! 1%nat = cells pushed !! 1%nat.
Proof.
  assert (Hc : 1%nat ∉ cb_cell <$> subscribers pushed_overlay)
    by (apply (bool_decide_unpack _); vm_compute; exact I).
  split; [vm_compute; reflexivity|]. split; [exact Hc|].
  apply (unsubscribed_cell_keeps_its_list this session pushed pushed_overlay);
    [vm_compute; reflexivity|exact Hc].
Defined.

(** A second container on the first overlay; a push and a new overlay
    before its clean-up. *)
Lemma own_cleanup_removes_own_callback_witness :
  World_ok pushed
  /\ heap pushed !! this = Some pushed_overlay
  /\ Container_mount this pushed = Some (2%nat, 2, snd (mounted pushed))
  /\ exists o2,
       heap (Container_cleanup this 2
               (snd (new_Overlay
                  (world_of (call this (Push (Node "C"))
                               (snd (mounted pushed))))))) !! this
       = Some o2
       /\ Callback this 2%nat ∉ subscribers o2.
Proof.
  assert (Hok : World_ok pushed) by exact (reachable_ok _ pushed_reachable).
  split; [exact Hok|]. split; [vm_compute; reflexivity|].
  split; [vm_compute; reflexivity|].
  apply (own_cleanup_removes_own_callback this pushed pushed_overlay
           2%nat 2 (snd (mounted pushed)) _ Hok);
    [vm_compute; reflexivity|vm_compute; reflexivity|].
  eapply steps_cons; [apply (step_call _ this (Push (Node "C")))|].
  eapply steps_cons; [apply step_new|]. apply steps_refl.
Defined.

(** The container of the first overlay after the two pushes. *)
Lemma subscribed_containers_show_the_list_witness :
  reachable pushed
  /\ heap pushed !! this = Some pushed_overlay
  /\ Callback this 0%nat ∈ subscribers pushed_overlay
  /\ cells pushed !! 0%nat = Some [(-1, "A"); (0, "B0")]
  /\ Container_view None None pushed 0%nat
     = Some (Keyed [(0%nat, "A"); (1%nat, "B0")]).
Proof.
  assert (Hin : Callback this 0%nat ∈ subscribers pushed_overlay)
    by (apply list_elem_of_singleton; reflexivity).
  split; [exact pushed_reachable|]. split; [vm_compute; reflexivity|].
  split; [exact Hin|].
  apply (subscribed_containers_show_the_list None None this pushed
           pushed_overlay (Callback this 0%nat) pushed_reachable);
    [vm_compute; reflexivity|exact Hin].
Defined.

(** The same contents, pushed with an id and without. *)
Lemma rendering_ignores_tags_witness :
  [(-1, "A"); (0, "B0")].*2 = [(0, "A"); (-1, "B0")].*2
  /\ Container_render None None [(-1, "A"); (0, "B0")]
     = Container_render None None [(0, "A"); (-1, "B0")].
Proof.
  split; [reflexivity|].
  apply (rendering_ignores_tags None None); reflexivity.
Defined.

(** The id 0 in the list [(-1,"A"), (0,"B0")]. *)
Lemma generated_id_borne_once_witness :
  reachable pushed
  /\ heap pushed !! this = Some pushed_overlay
  /\ iid pushed_overlay < JS.MAX_EXACT
  /\ (0, "B0") ∈ components pushed_overlay
  /\ exists l1 l2,
       components pushed_overlay = l1 ++ (0, "B0") :: l2
       /\ (0 ∉ l1.*1) /\ (0 ∉ l2.*1).
Proof.
  assert (Hin : (0, "B0") ∈ components pushed_overlay).
  { apply elem_of_cons. right. by apply list_elem_of_singleton. }
  split; [exact pushed_reachable|]. split; [vm_compute; reflexivity|].
  split; [vm_compute; reflexivity|]. split; [exact Hin|].
  apply (generated_id_borne_once this 0 "B0" pushed pushed_overlay
           pushed_reachable);
    [vm_compute; reflexivity|vm_compute; reflexivity|discriminate|exact Hin].
Defined.

End FurtherConcrete.
